(** * BatchedQueue: a shallow embedding of [src/batched-queue.js]

    The queue object, the array object it buffers items in, the timers of
    the JavaScript runtime and the calls the queue makes to its environment
    (diagnostics, the 'flush' event, the cargo handler) are modelled as one
    explicit state that every method transforms.

    Conventions of the model:
    - numbers are integers ([Z]); numeric options are either absent
      ([None], JavaScript [undefined]) or an integer;
    - arrays live in a heap indexed by locations, so that two references to
      one array object see each other's updates;
    - observers ('flush' listeners, the cargo handler, [debug]) are
      recorded in the output trace in call order; what they do on their own
      is not part of the queue and is not modelled;
    - a method that completes returns [this], which is the resulting state;
      a method that raises returns [Throw]. *)

From Stdlib Require Import ZArith List String Bool Lia.
From stdpp Require Import base option list gmap.
Import ListNotations.

Open Scope string_scope.
Open Scope list_scope.
Open Scope Z_scope.

(** ** JavaScript values and results *)

Definition loc := nat.
Definition handle := nat.
Definition Handler := nat.

Inductive JsVal : Type :=
| VUndefined
| VBool (b : bool)
| VNum (z : Z)
| VArray (l : loc)
| VFunction (f : Handler)
| VTimeout (h : handle).

(** ToBoolean on the values above. *)
Definition truthy (v : JsVal) : bool :=
  match v with
  | VUndefined => false
  | VBool b => b
  | VNum z => negb (z =? 0)
  | VArray _ | VFunction _ | VTimeout _ => true
  end.

Inductive Error : Type := ReferenceError | TypeError.

Inductive Result (A : Type) : Type :=
| Return (a : A)
| Throw (e : Error).
Arguments Return {A} a.
Arguments Throw {A} e.

Definition bind {A B : Type} (r : Result A) (k : A -> Result B) : Result B :=
  match r with
  | Return a => k a
  | Throw e => Throw e
  end.

Notation "'let*' x := r 'in' k" := (bind r (fun x => k))
  (at level 10, x name, r at level 100, k at level 200).

(** ** Constants (lines 5-8) *)

Definition DEFAULT_FLUSH_LIMIT : Z := 10000.
Definition DEFAULT_INTERVAL_THRESHOLD : Z := 1000.
Definition DEFAULT_CARGO_LIMIT : Z := 1.
Definition SAFETY_QUEUE_LIMIT : Z := 2000000.

(** ** Options and the queue object *)

Record Options : Type := mkOptions {
  limit : option Z;
  interval : option Z;
  cargo : option Handler;
  cargoLimit : option Z;
  safetyLimit : option Z
}.

(** [options || {}] of line 17: the empty object has no property. *)
Definition no_options : Options := mkOptions None None None None None.

(** [x || d] on a numeric option: [undefined] and [0] are falsy. *)
Definition or_default (x : option Z) (d : Z) : Z :=
  match x with
  | None => d
  | Some z => if z =? 0 then d else z
  end.

(** The own properties of a queue object.  [_cargoLimit] and [_cargoFn] are
    only assigned in cargo mode (lines 23-24) and [_timer] only while a
    timeout is held (lines 126, 133); [None] is the missing property. *)
Record BatchedQueue : Type := mkQueue {
  _q : loc;
  _flushLimit : Z;
  _intervalThreshold : Z;
  _cargoMode : bool;
  _cargoLimit : option Z;
  _cargoFn : option Handler;
  _safetyLimit : Z;
  _flushing : bool;
  _timer : option handle
}.

Definition opt_val {A : Type} (inj : A -> JsVal) (o : option A) : JsVal :=
  match o with
  | Some a => inj a
  | None => VUndefined
  end.

(** Reading the property [name] of a queue object.  The data properties are
    those the constructor and [_flushCheck] assign.  The remaining names
    found along the prototype chain are the accessors [length] and
    [saturated], the methods of the class and those of EventEmitter; none of
    them is spelled [cargoMode], and every name that is found nowhere reads
    as [undefined]. *)
Definition get_prop (o : BatchedQueue) (name : string) : JsVal :=
  if String.eqb name "_q" then VArray (_q o)
  else if String.eqb name "_flushLimit" then VNum (_flushLimit o)
  else if String.eqb name "_intervalThreshold" then VNum (_intervalThreshold o)
  else if String.eqb name "_cargoMode" then VBool (_cargoMode o)
  else if String.eqb name "_cargoLimit" then opt_val VNum (_cargoLimit o)
  else if String.eqb name "_cargoFn" then opt_val VFunction (_cargoFn o)
  else if String.eqb name "_safetyLimit" then VNum (_safetyLimit o)
  else if String.eqb name "_flushing" then VBool (_flushing o)
  else if String.eqb name "_timer" then opt_val VTimeout (_timer o)
  else VUndefined.

Definition set_flushing (b : bool) (o : BatchedQueue) : BatchedQueue :=
  mkQueue (_q o) (_flushLimit o) (_intervalThreshold o) (_cargoMode o)
    (_cargoLimit o) (_cargoFn o) (_safetyLimit o) b (_timer o).

Definition set_timer (t : option handle) (o : BatchedQueue) : BatchedQueue :=
  mkQueue (_q o) (_flushLimit o) (_intervalThreshold o) (_cargoMode o)
    (_cargoLimit o) (_cargoFn o) (_safetyLimit o) (_flushing o) t.

(** [isNaN(x)]: [undefined] converts to NaN, an integer does not. *)
Definition isNaN (x : option Z) : bool :=
  match x with
  | None => true
  | Some _ => false
  end.

(** [n >= x] and [x > 0] where [x] may be [undefined]: a comparison with
    NaN is false. *)
Definition ge_num (n : nat) (x : option Z) : bool :=
  match x with
  | None => false
  | Some z => z <=? Z.of_nat n
  end.

Definition gt_zero (x : option Z) : bool :=
  match x with
  | None => false
  | Some z => 0 <? z
  end.

(** The flush-triggering size read by [saturated] (lines 36-42). *)
Definition threshold (o : BatchedQueue) : option Z :=
  if _cargoMode o then _cargoLimit o else Some (_flushLimit o).

(** The properties that no method assigns after construction. *)
Definition config (o : BatchedQueue)
  : loc * Z * Z * bool * option Z * option Handler * Z :=
  (_q o, _flushLimit o, _intervalThreshold o, _cargoMode o, _cargoLimit o,
   _cargoFn o, _safetyLimit o).

Section Queue.

Context {item : Type}.

(** ** Calls to the environment, in call order *)

Inductive Effect : Type :=
| DebugSafety (lim : Z)
    (* lines 49, 62: the dropped-item diagnostic *)
| DebugSaturated (len : nat)
    (* line 104 *)
| DebugInterval (ms : Z)
    (* line 106 *)
| CargoCall (fn : Handler) (chunk : list item)
    (* line 109: the handler receives a fresh array and [resume] *)
| EmitFlush (batch : loc) (seen : list item) (saturated : bool).
    (* line 112: the listeners receive the array object [batch], which
       holds [seen] while they run, and the saturation flag *)

(** ** The state *)

Record State : Type := mkState {
  this : BatchedQueue;
  heap : gmap loc (list item);   (* array objects *)
  timers : gmap handle Z;        (* timeouts scheduled in the runtime, with their delay *)
  next_timer : handle;           (* the next timeout object to be created *)
  out : list Effect
}.

Definition array (s : State) (l : loc) : list item := heap s !!! l.

(** The contents of [this._q]. *)
Definition buf (s : State) : list item := array s (_q (this s)).

Definition set_this (o : BatchedQueue) (s : State) : State :=
  mkState o (heap s) (timers s) (next_timer s) (out s).

Definition set_array (l : loc) (xs : list item) (s : State) : State :=
  mkState (this s) (<[l := xs]> (heap s)) (timers s) (next_timer s) (out s).

Definition log (e : Effect) (s : State) : State :=
  mkState (this s) (heap s) (timers s) (next_timer s) (out s ++ [e]).

(** [debug(...)] *)
Definition debug (e : Effect) (s : State) : State := log e s.

(** In-place array operations on [this._q]. *)
Definition q_push (v : item) (s : State) : State :=
  set_array (_q (this s)) (buf s ++ [v]) s.

Definition q_unshift (v : item) (s : State) : State :=
  set_array (_q (this s)) (v :: buf s) s.

(** [this._q.length = 0] *)
Definition q_truncate (s : State) : State :=
  set_array (_q (this s)) [] s.

(** [this._q.splice(0, n)] for [n > 0]: the removed head is returned in a
    new array, the rest stays in [this._q]. *)
Definition q_splice0 (n : Z) (s : State) : list item * State :=
  (take (Z.to_nat n) (buf s),
   set_array (_q (this s)) (drop (Z.to_nat n) (buf s)) s).

(** [setTimeout(this._flush.bind(this), ms)]: the callback is always the
    queue's own [_flush], so the table only keeps the delay. *)
Definition setTimeout (ms : Z) (s : State) : handle * State :=
  (next_timer s,
   mkState (this s) (heap s) (<[next_timer s := ms]> (timers s))
     (S (next_timer s)) (out s)).

Definition clearTimeout (h : handle) (s : State) : State :=
  mkState (this s) (heap s) (delete h (timers s)) (next_timer s) (out s).

(** ** The constructor (lines 16-30) *)

(** Lines 17-29 on an initialised [this], starting from a runtime with no
    array, no timeout and no output: [this._q = []] creates the array. *)
Definition construct (options : option Options) : State :=
  let options := match options with Some o => o | None => no_options end in
  let q : loc := 0%nat in
  let o :=
    match cargo options with
    | Some f =>
        mkQueue q (or_default (limit options) DEFAULT_FLUSH_LIMIT)
          (or_default (interval options) DEFAULT_INTERVAL_THRESHOLD)
          true (Some (or_default (cargoLimit options) DEFAULT_CARGO_LIMIT))
          (Some f)
          (or_default (safetyLimit options) SAFETY_QUEUE_LIMIT) true None
    | None =>
        mkQueue q (or_default (limit options) DEFAULT_FLUSH_LIMIT)
          (or_default (interval options) DEFAULT_INTERVAL_THRESHOLD)
          false None None
          (or_default (safetyLimit options) SAFETY_QUEUE_LIMIT) true None
    end in
  mkState o {[ q := [] ]} ∅ 0%nat [].

(** The [this] binding of a constructor call.  The class has an [extends]
    clause (line 15), so the binding is uninitialised when the body starts
    and only a [super(...)] call initialises it. *)
Inductive ThisBinding : Type := Uninitialized | Initialized.

Definition resolve_this (b : ThisBinding) : Result unit :=
  match b with
  | Uninitialized => Throw ReferenceError
  | Initialized => Return tt
  end.

(** The body of the constructor under a given binding: line 17 does not
    touch [this], line 18 is the first statement that does. *)
Definition constructor_body (b : ThisBinding) (options : option Options)
  : Result State :=
  let* _ := resolve_this b in
  Return (construct options).

(** [new BatchedQueue(options)]: the body (lines 17-29) contains no
    [super(...)] call, so it runs with the binding it is entered with. *)
Definition constructor (options : option Options) : Result State :=
  constructor_body Uninitialized options.

(** ** Accessors (lines 32-42) *)

Definition get_length (s : State) : nat := length (buf s).

Definition get_saturated (s : State) : bool :=
  if _cargoMode (this s)
  then ge_num (get_length s) (_cargoLimit (this s))
  else _flushLimit (this s) <=? Z.of_nat (get_length s).

(** ** Internal functions (lines 100-135) *)

Definition _clearTimer (s : State) : State :=
  match _timer (this s) with
  | Some h => set_this (set_timer None (this s)) (clearTimeout h s)
  | None => s
  end.

(** [pause] (lines 82-86), placed here because [_flush] calls it. *)
Definition pause (s : State) : Result State :=
  let s := set_this (set_flushing false (this s)) s in
  let s := _clearTimer s in
  Return s.

(** [_flush] (lines 100-115).  In the cargo branch the handler is handed
    [resume] as its completion callback; its calling it is a later
    [resume()] on the queue. *)
Definition _flush (s : State) : Result State :=
  let s := _clearTimer s in
  let saturated := get_saturated s in
  let s :=
    if saturated then debug (DebugSaturated (get_length s)) s
    else debug (DebugInterval (_intervalThreshold (this s))) s in
  if truthy (get_prop (this s) "cargoMode")
     && negb (isNaN (_cargoLimit (this s)))
     && gt_zero (_cargoLimit (this s))
  then
    match _cargoLimit (this s), _cargoFn (this s) with
    | Some n, Some f =>
        let '(chunk, s) := q_splice0 n s in
        let s := log (CargoCall f chunk) s in
        pause s
    | _, _ => Throw TypeError
    end
  else
    let s := log (EmitFlush (_q (this s)) (buf s) saturated) s in
    Return (q_truncate s).

(** [_flushCheck] (lines 117-128) *)
Definition _flushCheck (s : State) : Result State :=
  if negb (_flushing (this s)) then Return s
  else if get_saturated s then _flush s
  else
    match _timer (this s) with
    | None =>
        let '(h, s) := setTimeout (_intervalThreshold (this s)) s in
        Return (set_this (set_timer (Some h) (this s)) s)
    | Some _ => Return s
    end.

(** ** Public methods (lines 47-95) *)

Definition push (v : item) (s : State) : Result State :=
  if _safetyLimit (this s) <? Z.of_nat (get_length s) then
    Return (debug (DebugSafety SAFETY_QUEUE_LIMIT) s)
  else
    _flushCheck (q_push v s).

Definition unshift (v : item) (s : State) : Result State :=
  if _safetyLimit (this s) <? Z.of_nat (get_length s) then
    Return (debug (DebugSafety SAFETY_QUEUE_LIMIT) s)
  else
    _flushCheck (q_unshift v s).

Definition empty (s : State) : Result State :=
  let s := q_truncate s in
  let s := _clearTimer s in
  Return s.

Definition resume (s : State) : Result State :=
  let s := set_this (set_flushing true (this s)) s in
  _flushCheck s.

(** ** The environment's moves *)

(** The runtime takes the timeout [h] out of its table when the delay has
    elapsed. *)
Definition expire (h : handle) (s : State) : State :=
  mkState (this s) (heap s) (delete h (timers s)) (next_timer s) (out s).

(** The runtime fires the timeout [h]: its callback is [_flush] bound to
    the queue (line 126).  A handle that is not scheduled, because it was
    cleared or has fired already, has nothing to run. *)
Definition fire (h : handle) (s : State) : Result State :=
  match timers s !! h with
  | Some _ => _flush (expire h s)
  | None => Return s
  end.

(** What the owner of a queue and the runtime can do to it. *)
Inductive Op : Type :=
| OpPush (v : item)
| OpUnshift (v : item)
| OpEmpty
| OpPause
| OpResume
| OpTimeout (h : handle).

Definition exec (op : Op) (s : State) : Result State :=
  match op with
  | OpPush v => push v s
  | OpUnshift v => unshift v s
  | OpEmpty => empty s
  | OpPause => pause s
  | OpResume => resume s
  | OpTimeout h => fire h s
  end.

Fixpoint run (ops : list Op) (s : State) : Result State :=
  match ops with
  | [] => Return s
  | op :: ops' => let* s' := exec op s in run ops' s'
  end.

(** [q.push(v1).push(v2)...]: each call is made on the queue the previous
    one returned. *)
Definition push_all (vs : list item) (s : State) : Result State :=
  run (map OpPush vs) s.

(** The state on which [op] enters [_flushCheck], when it does: lines 53
    and 66 after the item was added, line 93 after [_flushing] was set. *)
Definition check_point (op : Op) (s : State) : option State :=
  match op with
  | OpPush v =>
      if _safetyLimit (this s) <? Z.of_nat (get_length s) then None
      else Some (q_push v s)
  | OpUnshift v =>
      if _safetyLimit (this s) <? Z.of_nat (get_length s) then None
      else Some (q_unshift v s)
  | OpResume => Some (set_this (set_flushing true (this s)) s)
  | OpEmpty | OpPause | OpTimeout _ => None
  end.

(** The state at the last flush-check of a history, [acc] when it has
    none. *)
Fixpoint last_check (ops : list Op) (s : State) (acc : option State)
  : option State :=
  match ops with
  | [] => acc
  | op :: ops' =>
      match exec op s with
      | Return s' =>
          last_check ops' s'
            (match check_point op s with Some c => Some c | None => acc end)
      | Throw _ => acc
      end
  end.

(** The flushes among the calls to the environment. *)
Definition is_flush (e : Effect) : bool :=
  match e with
  | CargoCall _ _ | EmitFlush _ _ _ => true
  | DebugSafety _ | DebugSaturated _ | DebugInterval _ => false
  end.

Definition flushes (s : State) : list Effect :=
  List.filter is_flush (out s).

Definition is_cargo_call (e : Effect) : bool :=
  match e with
  | CargoCall _ _ => true
  | _ => false
  end.

Definition cargo_calls (s : State) : list Effect :=
  List.filter is_cargo_call (out s).

(** The calls of a flush that takes the 'flush' branch in state [s]: the
    diagnostic of lines 103-107 and the event of line 112. *)
Definition flush_output (s : State) : list Effect :=
  [ if get_saturated s then DebugSaturated (get_length s)
    else DebugInterval (_intervalThreshold (this s));
    EmitFlush (_q (this s)) (buf s) (get_saturated s) ].

(** ** Invariants of the reachable states *)

(** The runtime holds exactly the timeout the queue remembers. *)
Definition timers_ok (s : State) : Prop :=
  timers s =
    match _timer (this s) with
    | Some h => {[ h := _intervalThreshold (this s) ]}
    | None => ∅
    end.

(** What a pending timeout tells about the queue, [acc] being the state at
    the last flush-check: flushing is enabled, the buffer is below the
    flush-triggering size, and so it was, with flushing enabled, at the
    last flush-check. *)
Definition timer_inv (s : State) (acc : option State) : Prop :=
  timers_ok s
  /\ forall h, _timer (this s) = Some h ->
       _flushing (this s) = true
       /\ get_saturated s = false
       /\ exists c, acc = Some c
            /\ _flushing (this c) = true /\ get_saturated c = false.

(** ** Items handed over, items pushed *)

(** The items an environment call hands over. *)
Definition batch_of (e : Effect) : list item :=
  match e with
  | EmitFlush _ seen _ => seen
  | CargoCall _ chunk => chunk
  | DebugSafety _ | DebugSaturated _ | DebugInterval _ => []
  end.

Definition batches (es : list Effect) : list item := flat_map batch_of es.

(** Everything handed over so far, in order. *)
Definition delivered (s : State) : list item := batches (out s).

(** The item [op] adds to the buffer when it is a [push] that passes the
    guard of line 48. *)
Definition accepts (op : Op) (s : State) : list item :=
  match op with
  | OpPush v =>
      if _safetyLimit (this s) <? Z.of_nat (get_length s) then [] else [v]
  | _ => []
  end.

(** The items the pushes of a history add to the buffer, in order: each
    push is judged in the state it is made in. *)
Fixpoint accepted (ops : list Op) (s : State) : list item :=
  match ops with
  | [] => []
  | op :: ops' =>
      accepts op s ++
      match exec op s with
      | Return s' => accepted ops' s'
      | Throw _ => []
      end
  end.

(** Histories made of [push], [pause], [resume] and timer expiries. *)
Definition push_or_control (op : Op) : bool :=
  match op with
  | OpPush _ | OpPause | OpResume | OpTimeout _ => true
  | OpUnshift _ | OpEmpty => false
  end.

Definition not_resume (op : Op) : bool :=
  match op with
  | OpResume => false
  | _ => true
  end.

(** Timeout objects are created in increasing order, so the one the queue
    holds was created before the next one. *)
Definition timer_fresh (s : State) : Prop :=
  forall h, _timer (this s) = Some h -> (h < next_timer s)%nat.

Definition not_pause (op : Op) : bool :=
  match op with
  | OpPause => false
  | _ => true
  end.

End Queue.

Arguments Effect : clear implicits.
Arguments State : clear implicits.
Arguments Op : clear implicits.

(** ** Sample options *)

(** [{limit: 3, interval: 1000}] *)
Definition opts_limit3 : Options :=
  mkOptions (Some 3) (Some 1000) None None None.

(** [{cargo: f, cargoLimit: 2}], [f] being function number 7 *)
Definition opts_cargo2 : Options :=
  mkOptions None None (Some 7%nat) (Some 2) None.

(** [{limit: 5, safetyLimit: 1}] *)
Definition opts_safety1 : Options :=
  mkOptions (Some 5) None None None (Some 1).

(** * Properties *)

Section Facts.

Context {item : Type}.
Implicit Types (s c : State item) (v : item) (vs : list item)
  (o : BatchedQueue) (op : Op item) (ops : list (Op item)).

(** ** Reading the state after an update *)

Lemma buf_set_array s xs : buf (set_array (_q (this s)) xs s) = xs.
Proof. unfold buf, array; simpl. apply lookup_total_insert_eq. Qed.

Lemma buf_q_push v s : buf (q_push v s) = buf s ++ [v].
Proof. apply buf_set_array. Qed.

Lemma buf_q_unshift v s : buf (q_unshift v s) = v :: buf s.
Proof. apply buf_set_array. Qed.

Lemma buf_q_truncate s : buf (q_truncate s) = [].
Proof. apply buf_set_array. Qed.

Lemma buf_clearTimer s : buf (_clearTimer s) = buf s.
Proof. unfold _clearTimer. destruct (_timer (this s)); reflexivity. Qed.

Lemma saturated_clearTimer s : get_saturated (_clearTimer s) = get_saturated s.
Proof. unfold _clearTimer. destruct (_timer (this s)); reflexivity. Qed.

Lemma timer_clearTimer s : _timer (this (_clearTimer s)) = None.
Proof.
  unfold _clearTimer. destruct (_timer (this s)) eqn:E; simpl; auto.
Qed.

Lemma flushing_clearTimer s :
  _flushing (this (_clearTimer s)) = _flushing (this s).
Proof. unfold _clearTimer. destruct (_timer (this s)); reflexivity. Qed.

Lemma out_clearTimer s : out (_clearTimer s) = out s.
Proof. unfold _clearTimer. destruct (_timer (this s)); reflexivity. Qed.

Lemma timers_ok_clearTimer s : timers_ok s -> timers_ok (_clearTimer s).
Proof.
  unfold timers_ok, _clearTimer. destruct (_timer (this s)) as [h|] eqn:E.
  - simpl. intros ->. apply delete_singleton_eq.
  - rewrite E. auto.
Qed.

(** ** The cargo branch of [_flush] *)

(** Line 108 reads [this.cargoMode]; the property the constructor assigns
    is [_cargoMode], so the guard of the cargo branch is false in every
    state. *)
Lemma cargo_guard_false o :
  truthy (get_prop o "cargoMode") && negb (isNaN (_cargoLimit o))
    && gt_zero (_cargoLimit o) = false.
Proof. reflexivity. Qed.

Lemma _flush_Return s :
  exists s', _flush s = Return s'
    /\ this s' = set_timer None (this s)
    /\ heap s' = <[_q (this s) := []]> (heap s)
    /\ timers s' = timers (_clearTimer s)
    /\ next_timer s' = next_timer s
    /\ out s' = out s ++ flush_output s.
Proof.
  unfold _flush. rewrite saturated_clearTimer.
  eexists; split; [reflexivity|].
  unfold flush_output, get_length, _clearTimer.
  destruct s as [[q fl it cm cl cf sl f t] hp tm nt ou].
  destruct t; simpl;
    destruct (get_saturated _); simpl; rewrite <- ?app_assoc; auto 10.
Qed.


(** ** [saturated] and the configuration *)

Lemma get_saturated_threshold s :
  get_saturated s = ge_num (get_length s) (threshold (this s)).
Proof.
  unfold get_saturated, threshold. destruct (_cargoMode (this s)); reflexivity.
Qed.

Lemma ge_num_mono (n m : nat) (x : option Z) :
  (n <= m)%nat -> ge_num m x = false -> ge_num n x = false.
Proof.
  destruct x as [z|]; simpl; auto.
  intros Hnm H. apply Z.leb_gt in H. apply Z.leb_gt. lia.
Qed.

Lemma threshold_config o o' : config o' = config o -> threshold o' = threshold o.
Proof.
  unfold config, threshold. intros H.
  injection H as _ Hfl _ Hcm Hcl _ _. rewrite Hfl, Hcm, Hcl. reflexivity.
Qed.

(** ** The cases of [_flushCheck] *)

Lemma _flushCheck_paused s :
  _flushing (this s) = false -> _flushCheck s = Return s.
Proof. unfold _flushCheck. intros ->. reflexivity. Qed.

Lemma _flushCheck_saturated s :
  _flushing (this s) = true -> get_saturated s = true ->
  _flushCheck s = _flush s.
Proof. unfold _flushCheck. intros -> ->. reflexivity. Qed.

Lemma _flushCheck_pending s h :
  _timer (this s) = Some h -> get_saturated s = false ->
  _flushCheck s = Return s.
Proof.
  unfold _flushCheck. intros -> ->. destruct (_flushing (this s)); reflexivity.
Qed.

Lemma _flushCheck_arm s :
  _flushing (this s) = true -> get_saturated s = false ->
  _timer (this s) = None ->
  _flushCheck s =
    Return (mkState (set_timer (Some (next_timer s)) (this s)) (heap s)
              (<[next_timer s := _intervalThreshold (this s)]> (timers s))
              (S (next_timer s)) (out s)).
Proof. unfold _flushCheck. intros -> -> ->. reflexivity. Qed.

(** A flush-check that does not flush: the buffer, the output and the
    configuration stay, and a timeout is pending afterwards, the one that
    was pending before when there was one. *)
Lemma _flushCheck_unsaturated s :
  _flushing (this s) = true -> get_saturated s = false ->
  exists s', _flushCheck s = Return s'
    /\ buf s' = buf s /\ out s' = out s
    /\ config (this s') = config (this s)
    /\ _flushing (this s') = true
    /\ _timer (this s') = Some (default (next_timer s) (_timer (this s)))
    /\ next_timer s' =
         match _timer (this s) with
         | Some _ => next_timer s
         | None => S (next_timer s)
         end
    /\ (timers_ok s -> timers_ok s').
Proof.
  intros Hf Hs. destruct (_timer (this s)) as [h|] eqn:Ht.
  - exists s. rewrite (_flushCheck_pending s h) by assumption.
    rewrite Ht. simpl. auto 10.
  - eexists. rewrite _flushCheck_arm by assumption.
    split; [reflexivity|]. simpl. repeat split; auto.
    unfold timers_ok. simpl. rewrite Ht. intros ->. apply insert_empty.
Qed.

(** A flush-check that flushes. *)
Lemma _flushCheck_flushes s :
  _flushing (this s) = true -> get_saturated s = true ->
  exists s', _flushCheck s = Return s'
    /\ buf s' = [] /\ out s' = out s ++ flush_output s
    /\ config (this s') = config (this s)
    /\ _flushing (this s') = true
    /\ _timer (this s') = None
    /\ next_timer s' = next_timer s
    /\ heap s' = <[_q (this s) := []]> (heap s)
    /\ (timers_ok s -> timers_ok s').
Proof.
  intros Hf Hs. rewrite _flushCheck_saturated by assumption.
  destruct (_flush_Return s) as (s' & -> & Hthis & Hheap & Htm & Hnt & Hout).
  exists s'. split; [reflexivity|].
  repeat split; auto; try (rewrite Hthis; simpl; auto).
  - unfold buf, array. rewrite Hthis, Hheap. simpl. apply lookup_total_insert_eq.
  - intros Hok. apply timers_ok_clearTimer in Hok. unfold timers_ok in *.
    rewrite Htm, Hok, timer_clearTimer, Hthis. reflexivity.
Qed.


(** ** [push] and [unshift], case by case *)

Lemma push_dropped v s :
  _safetyLimit (this s) < Z.of_nat (get_length s) ->
  push v s = Return (debug (DebugSafety SAFETY_QUEUE_LIMIT) s).
Proof. unfold push. intros H. apply Z.ltb_lt in H. rewrite H. reflexivity. Qed.

Lemma unshift_dropped v s :
  _safetyLimit (this s) < Z.of_nat (get_length s) ->
  unshift v s = Return (debug (DebugSafety SAFETY_QUEUE_LIMIT) s).
Proof. unfold unshift. intros H. apply Z.ltb_lt in H. rewrite H. reflexivity. Qed.

Lemma push_accepted v s :
  Z.of_nat (get_length s) <= _safetyLimit (this s) ->
  push v s = _flushCheck (q_push v s).
Proof.
  unfold push. intros H. apply Z.ltb_ge in H. rewrite H. reflexivity.
Qed.

Lemma unshift_accepted v s :
  Z.of_nat (get_length s) <= _safetyLimit (this s) ->
  unshift v s = _flushCheck (q_unshift v s).
Proof.
  unfold unshift. intros H. apply Z.ltb_ge in H. rewrite H. reflexivity.
Qed.

Lemma length_q_push v s : get_length (q_push v s) = S (get_length s).
Proof. unfold get_length. rewrite buf_q_push, length_app. simpl. lia. Qed.

Lemma length_q_unshift v s : get_length (q_unshift v s) = S (get_length s).
Proof. unfold get_length. rewrite buf_q_unshift. reflexivity. Qed.

(** A push that is accepted and leaves the buffer below the
    flush-triggering size. *)
Lemma push_below v s :
  _flushing (this s) = true ->
  Z.of_nat (get_length s) <= _safetyLimit (this s) ->
  ge_num (S (get_length s)) (threshold (this s)) = false ->
  exists s', push v s = Return s'
    /\ buf s' = buf s ++ [v] /\ out s' = out s
    /\ config (this s') = config (this s)
    /\ _flushing (this s') = true
    /\ _timer (this s') = Some (default (next_timer s) (_timer (this s)))
    /\ next_timer s' =
         match _timer (this s) with
         | Some _ => next_timer s
         | None => S (next_timer s)
         end
    /\ (timers_ok s -> timers_ok s').
Proof.
  intros Hf Hlen Hsat. rewrite push_accepted by assumption.
  destruct (_flushCheck_unsaturated (q_push v s)) as (s' & E & Hb & R).
  - exact Hf.
  - rewrite get_saturated_threshold, length_q_push. exact Hsat.
  - exists s'. split; [exact E|]. rewrite Hb, buf_q_push.
    split; [reflexivity|]. exact R.
Qed.

(** A push that is accepted and brings the buffer to the flush-triggering
    size. *)
Lemma push_reaching v s :
  _flushing (this s) = true ->
  Z.of_nat (get_length s) <= _safetyLimit (this s) ->
  ge_num (S (get_length s)) (threshold (this s)) = true ->
  exists s', push v s = Return s'
    /\ buf s' = []
    /\ out s' = out s ++ [DebugSaturated (S (get_length s));
                          EmitFlush (_q (this s)) (buf s ++ [v]) true]
    /\ config (this s') = config (this s)
    /\ _flushing (this s') = true
    /\ _timer (this s') = None
    /\ next_timer s' = next_timer s
    /\ (timers_ok s -> timers_ok s').
Proof.
  intros Hf Hlen Hsat. rewrite push_accepted by assumption.
  assert (Hs : get_saturated (q_push v s) = true).
  { rewrite get_saturated_threshold, length_q_push. exact Hsat. }
  destruct (_flushCheck_flushes (q_push v s) Hf Hs)
    as (s' & E & Hb & Ho & Hc & Hfl & Ht & Hn & _ & Hok).
  exists s'. split; [exact E|].
  unfold flush_output in Ho. rewrite Hs, length_q_push, buf_q_push in Ho.
  repeat split; auto.
Qed.


(** ** Sequences of pushes *)

Lemma run_cons op ops s :
  run (op :: ops) s = let* s' := exec op s in run ops s'.
Proof. reflexivity. Qed.

Lemma run_app ops1 ops2 s :
  run (ops1 ++ ops2) s = let* s' := run ops1 s in run ops2 s'.
Proof.
  revert s. induction ops1 as [|op ops1 IH]; intros s; simpl; [reflexivity|].
  destruct (exec op s); simpl; auto.
Qed.

Lemma push_all_app vs ws s :
  push_all (vs ++ ws) s = let* s' := push_all vs s in push_all ws s'.
Proof. unfold push_all. rewrite map_app. apply run_app. Qed.

(** Pushes that are all accepted and keep the buffer below the
    flush-triggering size: nothing is output, the items are appended, and
    from the first push on one and the same timeout is pending. *)
Lemma push_all_below vs : forall s,
  _flushing (this s) = true ->
  Z.of_nat (get_length s + length vs) <= _safetyLimit (this s) + 1 ->
  ge_num (get_length s + length vs) (threshold (this s)) = false ->
  exists s', push_all vs s = Return s'
    /\ buf s' = buf s ++ vs /\ out s' = out s
    /\ config (this s') = config (this s)
    /\ _flushing (this s') = true
    /\ _timer (this s') =
         match vs with
         | [] => _timer (this s)
         | _ :: _ => Some (default (next_timer s) (_timer (this s)))
         end
    /\ next_timer s' =
         match vs, _timer (this s) with
         | _ :: _, None => S (next_timer s)
         | _, _ => next_timer s
         end
    /\ (timers_ok s -> timers_ok s').
Proof.
  induction vs as [|v vs IH]; intros s Hf Hlen Hsat.
  - exists s. split; [reflexivity|]. rewrite app_nil_r.
    repeat split; auto.
  - simpl length in *.
    destruct (push_below v s) as (s1 & E1 & Hb1 & Ho1 & Hc1 & Hf1 & Ht1 & Hn1 & Hok1).
    + exact Hf.
    + lia.
    + eapply ge_num_mono; [|exact Hsat]. lia.
    + assert (Hl1 : get_length s1 = S (get_length s)).
      { unfold get_length. rewrite Hb1, length_app. simpl. lia. }
      assert (Hsl : _safetyLimit (this s1) = _safetyLimit (this s)).
      { unfold config in Hc1. congruence. }
      destruct (IH s1) as (s' & E & Hb & Ho & Hc & Hf' & Ht & Hn & Hok).
      * exact Hf1.
      * rewrite Hl1, Hsl. lia.
      * rewrite Hl1, (threshold_config _ _ Hc1).
        replace (S (get_length s) + length vs)%nat
          with (get_length s + S (length vs))%nat by lia.
        exact Hsat.
      * exists s'. unfold push_all in *. simpl map. rewrite run_cons.
        simpl exec. rewrite E1. simpl. split; [exact E|].
        rewrite Hb, Hb1, <- app_assoc, Ho, Ho1, Hc, Hc1.
        repeat split; auto.
        -- rewrite Ht, Ht1. destruct vs; reflexivity.
        -- rewrite Hn, Ht1, Hn1. destruct vs; reflexivity.
Qed.


(** ** Reaching the size threshold *)

(** C5. In a non-cargo queue with flushing enabled, an empty buffer and a
    size threshold [L] with [1 <= L] below the safety limit, pushing exactly
    [L] items makes the last push flush synchronously: the 'flush' event
    carries all [L] items in insertion order with [saturated = true], and the
    buffer is empty afterwards; after any smaller number of those pushes
    nothing has been output and the items pushed so far are buffered. *)
Theorem push_limit_items_flushes s vs (L : Z) :
  _cargoMode (this s) = false ->
  _flushing (this s) = true ->
  buf s = [] ->
  _flushLimit (this s) = L ->
  1 <= L ->
  L < _safetyLimit (this s) ->
  Z.of_nat (length vs) = L ->
  (exists s', push_all vs s = Return s'
     /\ out s' = out s ++ [DebugSaturated (length vs);
                           EmitFlush (_q (this s)) vs true]
     /\ buf s' = [] /\ get_length s' = 0%nat)
  /\ (forall k, (k < length vs)%nat ->
        exists s'', push_all (take k vs) s = Return s''
          /\ out s'' = out s /\ buf s'' = take k vs).
Proof.
  intros Hcm Hf Hb HL H1 Hsafe Hlen.
  assert (Hth : threshold (this s) = Some L).
  { unfold threshold. rewrite Hcm, HL. reflexivity. }
  assert (Hl0 : get_length s = 0%nat).
  { unfold get_length. rewrite Hb. reflexivity. }
  assert (Hprefix : forall ws, (length ws < length vs)%nat ->
            exists s1, push_all ws s = Return s1
              /\ buf s1 = ws /\ out s1 = out s
              /\ config (this s1) = config (this s)
              /\ _flushing (this s1) = true).
  { intros ws Hws.
    destruct (push_all_below ws s) as (s1 & E & Hb1 & Ho1 & Hc1 & Hf1 & _).
    - exact Hf.
    - rewrite Hl0. simpl. lia.
    - rewrite Hl0, Hth. simpl. apply Z.leb_gt. lia.
    - exists s1. rewrite Hb in Hb1. auto. }
  split.
  - destruct vs as [|w ws _] using rev_ind.
    { simpl in Hlen. lia. }
    rewrite length_app in *. simpl length in *.
    destruct (Hprefix ws) as (s1 & E1 & Hb1 & Ho1 & Hc1 & Hf1); [lia|].
    assert (Hl1 : get_length s1 = length ws).
    { unfold get_length. rewrite Hb1. reflexivity. }
    destruct (push_reaching w s1) as (s' & E & Hb' & Ho' & _).
    + exact Hf1.
    + rewrite Hl1. unfold config in Hc1.
      replace (_safetyLimit (this s1)) with (_safetyLimit (this s)) by congruence.
      lia.
    + rewrite Hl1, (threshold_config _ _ Hc1), Hth. simpl. apply Z.leb_le. lia.
    + exists s'. rewrite push_all_app, E1. simpl.
      unfold push_all. simpl. rewrite E. simpl.
      rewrite Ho', Ho1, Hl1, Hb1, Hb'.
      replace (_q (this s1)) with (_q (this s))
        by (unfold config in Hc1; congruence).
      replace (length ws + 1)%nat with (S (length ws)) by lia.
      unfold get_length. rewrite Hb'. auto.
  - intros k Hk.
    destruct (Hprefix (take k vs)) as (s1 & E1 & Hb1 & Ho1 & _).
    + rewrite length_take. lia.
    + exists s1. auto.
Qed.


(** ** One timeout per window *)

(** C7. A flush-check that runs on an unsaturated buffer while a timeout is
    pending changes nothing: the same handle stays in [_timer] and in the
    runtime's table, and no timeout is created.  Hence, starting from an
    empty buffer with no timeout pending, the first push arms a timeout and
    the pushes that follow without saturating the buffer all leave that
    timeout, and only that one, pending. *)
Theorem flushCheck_keeps_pending_timer :
  (forall s h,
     _timer (this s) = Some h -> get_saturated s = false ->
     _flushCheck s = Return s)
  /\ (forall s v vs,
        _flushing (this s) = true ->
        buf s = [] ->
        _timer (this s) = None ->
        timers s = ∅ ->
        Z.of_nat (length vs) <= _safetyLimit (this s) ->
        ge_num (S (length vs)) (threshold (this s)) = false ->
        exists s1 s2,
          push v s = Return s1 /\ push_all vs s1 = Return s2
          /\ _timer (this s1) = Some (next_timer s)
          /\ timers s1 = {[ next_timer s := _intervalThreshold (this s) ]}
          /\ _timer (this s2) = _timer (this s1)
          /\ timers s2 = timers s1
          /\ next_timer s2 = next_timer s1
          /\ buf s2 = v :: vs).
Proof.
  split; [exact _flushCheck_pending|].
  intros s v vs Hf Hb Ht Htm Hsafe Hsat.
  assert (Hl0 : get_length s = 0%nat).
  { unfold get_length. rewrite Hb. reflexivity. }
  assert (Hok : timers_ok s).
  { unfold timers_ok. rewrite Ht. exact Htm. }
  destruct (push_below v s) as (s1 & E1 & Hb1 & _ & Hc1 & Hf1 & Ht1 & Hn1 & Hok1).
  { exact Hf. }
  { rewrite Hl0. simpl. lia. }
  { rewrite Hl0. eapply ge_num_mono; [|exact Hsat]. lia. }
  rewrite Ht in Ht1, Hn1. simpl in Ht1. rewrite Hb in Hb1. simpl in Hb1.
  assert (Hl1 : get_length s1 = 1%nat).
  { unfold get_length. rewrite Hb1. reflexivity. }
  assert (Hcfg : _safetyLimit (this s1) = _safetyLimit (this s)
                 /\ _intervalThreshold (this s1) = _intervalThreshold (this s)).
  { unfold config in Hc1. split; congruence. }
  destruct Hcfg as [Hsl Hit].
  destruct (push_all_below vs s1) as (s2 & E2 & Hb2 & _ & Hc2 & _ & Ht2 & Hn2 & Hok2).
  { exact Hf1. }
  { rewrite Hl1, Hsl. lia. }
  { rewrite Hl1, (threshold_config _ _ Hc1). exact Hsat. }
  assert (Ht2' : _timer (this s2) = Some (next_timer s)).
  { rewrite Ht2, Ht1. destruct vs; reflexivity. }
  assert (Hit2 : _intervalThreshold (this s2) = _intervalThreshold (this s)).
  { unfold config in Hc2. congruence. }
  specialize (Hok1 Hok). specialize (Hok2 Hok1).
  unfold timers_ok in Hok1, Hok2.
  rewrite Ht1, Hit in Hok1. rewrite Ht2', Hit2 in Hok2.
  exists s1, s2. rewrite Hb2, Hb1.
  repeat split; auto; try congruence.
  rewrite Hn2, Ht1. destruct vs; reflexivity.
Qed.


(** ** No method raises *)

Lemma _flushCheck_Return s : exists s', _flushCheck s = Return s'.
Proof.
  unfold _flushCheck. destruct (negb _); [eauto|].
  destruct (get_saturated s).
  - destruct (_flush_Return s) as (s' & E & _). eauto.
  - destruct (_timer (this s)); simpl; eauto.
Qed.

Lemma exec_Return op s : exists s', exec op s = Return s'.
Proof.
  destruct op as [v|v| | | |h]; simpl.
  - unfold push. destruct (_ <? _); [eauto|apply _flushCheck_Return].
  - unfold unshift. destruct (_ <? _); [eauto|apply _flushCheck_Return].
  - unfold empty. eauto.
  - unfold pause. eauto.
  - unfold resume. apply _flushCheck_Return.
  - unfold fire. destruct (timers s !! h); [|eauto].
    destruct (_flush_Return (expire h s)) as (s' & E & _). eauto.
Qed.

Lemma run_Return ops : forall s, exists s', run ops s = Return s'.
Proof.
  induction ops as [|op ops IH]; intros s; simpl; [eauto|].
  destruct (exec_Return op s) as (s1 & ->). simpl. apply IH.
Qed.

(** ** Overflow *)

(** C8. A push or an unshift on a queue whose buffer is already longer than
    [_safetyLimit] returns the queue without raising; the only thing that
    happened is the diagnostic: the queue object, the buffer and the timers
    are as before, and every later sequence of operations runs to
    completion. *)
Theorem overflow_drops_item s v :
  _safetyLimit (this s) < Z.of_nat (get_length s) ->
  exists s',
    push v s = Return s' /\ unshift v s = Return s'
    /\ this s' = this s /\ heap s' = heap s /\ buf s' = buf s
    /\ timers s' = timers s /\ next_timer s' = next_timer s
    /\ out s' = out s ++ [DebugSafety SAFETY_QUEUE_LIMIT]
    /\ forall ops, exists s'', run ops s' = Return s''.
Proof.
  intros H. exists (debug (DebugSafety SAFETY_QUEUE_LIMIT) s).
  rewrite push_dropped, unshift_dropped by exact H.
  repeat split; auto. intros ops. apply run_Return.
Qed.


(** ** Pause and resume *)

Lemma flushes_log e s :
  flushes (log e s) = flushes s ++ (if is_flush e then [e] else []).
Proof. unfold flushes. simpl. rewrite List.filter_app. reflexivity. Qed.

Lemma push_paused v s :
  _flushing (this s) = false ->
  exists s', push v s = Return s'
    /\ this s' = this s /\ timers s' = timers s
    /\ next_timer s' = next_timer s /\ flushes s' = flushes s
    /\ buf s' =
         (if _safetyLimit (this s) <? Z.of_nat (get_length s) then buf s
          else buf s ++ [v]).
Proof.
  intros Hf. unfold push. destruct (_ <? _).
  - eexists. split; [reflexivity|]. unfold debug. rewrite flushes_log.
    simpl. rewrite app_nil_r. auto 10.
  - rewrite _flushCheck_paused by exact Hf.
    eexists. split; [reflexivity|]. rewrite buf_q_push. auto 10.
Qed.

Lemma push_all_paused vs : forall s,
  _flushing (this s) = false ->
  exists s', push_all vs s = Return s'
    /\ this s' = this s /\ timers s' = timers s
    /\ next_timer s' = next_timer s /\ flushes s' = flushes s
    /\ (Z.of_nat (get_length s + length vs) <= _safetyLimit (this s) + 1 ->
        buf s' = buf s ++ vs).
Proof.
  induction vs as [|v vs IH]; intros s Hf.
  - exists s. split; [reflexivity|]. rewrite app_nil_r. auto 10.
  - destruct (push_paused v s Hf) as (s1 & E1 & Hthis1 & Htm1 & Hn1 & Hfl1 & Hb1).
    destruct (IH s1) as (s' & E & Hthis & Htm & Hn & Hfl & Hb).
    { rewrite Hthis1. exact Hf. }
    exists s'. unfold push_all in *. simpl map. rewrite run_cons. simpl exec.
    rewrite E1. simpl. split; [exact E|].
    repeat split; try congruence.
    simpl length. intros Hlen.
    destruct (_ <? _) eqn:Hdrop in Hb1; [apply Z.ltb_lt in Hdrop; lia|].
    assert (Hl1 : get_length s1 = S (get_length s)).
    { unfold get_length. rewrite Hb1, length_app. simpl. lia. }
    rewrite Hb, Hb1, <- app_assoc; [reflexivity|].
    rewrite Hl1, Hthis1. lia.
Qed.

(** C6. After [pause()] no push flushes, however long the buffer gets: the
    pushes add no call to the 'flush' listeners or to the cargo handler,
    arm no timeout and leave flushing disabled, while the items pile up.
    The following [resume()] always returns with flushing enabled, and what
    it returns is the result of the flush-check run on the re-enabled
    queue.  When the buffer is saturated that flush-check flushes at once:
    the whole buffer is emitted with [saturated = true] and the buffer is
    empty afterwards.  When it is not, nothing is output, the buffer stays
    and a new timeout is pending. *)
Theorem pause_holds_flush_until_resume s vs :
  exists s0 s1 s2,
    pause s = Return s0 /\ push_all vs s0 = Return s1
    /\ flushes s1 = flushes s
    /\ _flushing (this s1) = false
    /\ _timer (this s1) = None
    /\ (timers_ok s -> timers s1 = ∅)
    /\ (Z.of_nat (get_length s + length vs) <= _safetyLimit (this s) + 1 ->
        buf s1 = buf s ++ vs)
    /\ resume s1 = Return s2
    /\ _flushCheck (set_this (set_flushing true (this s1)) s1) = Return s2
    /\ _flushing (this s2) = true
    /\ if get_saturated s1
       then out s2 = out s1 ++ [DebugSaturated (get_length s1);
                               EmitFlush (_q (this s1)) (buf s1) true]
            /\ buf s2 = []
            /\ _timer (this s2) = None
       else out s2 = out s1
            /\ buf s2 = buf s1
            /\ _timer (this s2) = Some (next_timer s1).
Proof.
  set (s0 := _clearTimer (set_this (set_flushing false (this s)) s)).
  assert (Hf0 : _flushing (this s0) = false).
  { unfold s0. rewrite flushing_clearTimer. reflexivity. }
  destruct (push_all_paused vs s0 Hf0) as (s1 & E1 & Hthis & Htm & _ & Hfl & Hb).
  assert (Ht0 : _timer (this s0) = None) by apply timer_clearTimer.
  assert (Ht1 : _timer (this s1) = None) by (rewrite Hthis; exact Ht0).
  set (r := set_this (set_flushing true (this s1)) s1).
  assert (Hres : exists s2, _flushCheck r = Return s2
            /\ _flushing (this s2) = true
            /\ if get_saturated s1
               then out s2 = out s1 ++ [DebugSaturated (get_length s1);
                                       EmitFlush (_q (this s1)) (buf s1) true]
                    /\ buf s2 = []
                    /\ _timer (this s2) = None
               else out s2 = out s1
                    /\ buf s2 = buf s1
                    /\ _timer (this s2) = Some (next_timer s1)).
  { destruct (get_saturated s1) eqn:Hsat.
    - destruct (_flushCheck_flushes r)
        as (s2 & E2 & Hb2 & Ho2 & _ & Hf2 & Ht2 & _).
      + reflexivity.
      + exact Hsat.
      + exists s2. split; [exact E2|]. split; [exact Hf2|].
        split; [|split; [exact Hb2|exact Ht2]].
        rewrite Ho2. unfold flush_output.
        change (get_saturated r) with (get_saturated s1). rewrite Hsat.
        reflexivity.
    - destruct (_flushCheck_unsaturated r)
        as (s2 & E2 & Hb2 & Ho2 & _ & Hf2 & Ht2 & _).
      + reflexivity.
      + exact Hsat.
      + exists s2. split; [exact E2|]. split; [exact Hf2|].
        split; [exact Ho2|]. split; [exact Hb2|].
        rewrite Ht2. change (_timer (this r)) with (_timer (this s1)).
        rewrite Ht1. reflexivity. }
  destruct Hres as (s2 & E2 & Hf2 & Hcase).
  exists s0, s1, s2. split; [reflexivity|]. split; [exact E1|].
  split; [|split; [|split; [|split; [|split]]]].
  - rewrite Hfl. unfold flushes, s0. rewrite out_clearTimer. reflexivity.
  - rewrite Hthis. exact Hf0.
  - exact Ht1.
  - intros Hok. rewrite Htm.
    assert (Hok0 : timers_ok s0).
    { unfold s0. apply timers_ok_clearTimer. exact Hok. }
    unfold timers_ok in Hok0. rewrite Ht0 in Hok0. exact Hok0.
  - intros Hlen. rewrite Hb.
    + unfold s0. rewrite buf_clearTimer. reflexivity.
    + unfold s0 at 1 2. unfold get_length. rewrite buf_clearTimer.
      unfold _clearTimer; simpl. destruct (_timer (this s)); simpl; exact Hlen.
  - split; [exact E2|]. split; [exact E2|]. split; [exact Hf2|exact Hcase].
Qed.


(** ** Resuming an empty queue *)

(** C10. [resume()] on an empty, unsaturated buffer leaves a timeout
    pending although nothing is queued: the one that was pending already,
    or else a newly armed one for [_intervalThreshold] ms.  When that
    timeout fires while the buffer is still empty, [_flush] runs and the
    'flush' listeners receive the empty buffer with [saturated = false]. *)
Theorem resume_empty_arms_timer s :
  buf s = [] ->
  get_saturated s = false ->
  timers_ok s ->
  exists h s1 s2,
    resume s = Return s1
    /\ h = default (next_timer s) (_timer (this s))
    /\ _timer (this s1) = Some h
    /\ timers s1 = {[ h := _intervalThreshold (this s) ]}
    /\ buf s1 = [] /\ out s1 = out s
    /\ fire h s1 = Return s2
    /\ out s2 = out s1 ++ [DebugInterval (_intervalThreshold (this s));
                           EmitFlush (_q (this s)) [] false]
    /\ buf s2 = [] /\ _timer (this s2) = None.
Proof.
  intros Hb Hsat Hok. unfold resume.
  set (r := set_this (set_flushing true (this s)) s).
  destruct (_flushCheck_unsaturated r) as (s1 & E1 & Hb1 & Ho1 & Hc1 & _ & Ht1 & _ & Hok1).
  { reflexivity. }
  { exact Hsat. }
  change (buf r) with (buf s) in Hb1. rewrite Hb in Hb1.
  change (next_timer r) with (next_timer s) in Ht1.
  change (_timer (this r)) with (_timer (this s)) in Ht1.
  change (config (this r)) with (config (this s)) in Hc1.
  specialize (Hok1 Hok). unfold timers_ok in Hok1. rewrite Ht1 in Hok1.
  set (h := default (next_timer s) (_timer (this s))) in *.
  assert (Hcfg : _intervalThreshold (this s1) = _intervalThreshold (this s)
                 /\ _q (this s1) = _q (this s)
                 /\ threshold (this s1) = threshold (this s)).
  { split; [|split]; [unfold config in Hc1; congruence ..|].
    apply threshold_config. exact Hc1. }
  destruct Hcfg as (Hit & Hq & Hth).
  rewrite Hit in Hok1.
  assert (Hsat1 : get_saturated (expire h s1) = false).
  { rewrite get_saturated_threshold in *. unfold get_length in *.
    change (buf (expire h s1)) with (buf s1).
    change (this (expire h s1)) with (this s1).
    rewrite Hb1, Hth. rewrite Hb in Hsat. exact Hsat. }
  destruct (_flush_Return (expire h s1)) as (s2 & E2 & Hthis2 & Hheap2 & _ & _ & Ho2).
  exists h, s1, s2. split; [exact E1|]. split; [reflexivity|].
  split; [exact Ht1|]. split; [exact Hok1|]. split; [exact Hb1|].
  split; [exact Ho1|]. split; [|split; [|split]].
  - unfold fire. rewrite Hok1, lookup_singleton_eq. exact E2.
  - rewrite Ho2. unfold flush_output. rewrite Hsat1.
    change (buf (expire h s1)) with (buf s1).
    change (this (expire h s1)) with (this s1).
    change (out (expire h s1)) with (out s1).
    rewrite Hb1, Hit, Hq. reflexivity.
  - unfold buf, array. rewrite Hthis2, Hheap2. simpl.
    apply lookup_total_insert_eq.
  - rewrite Hthis2. reflexivity.
Qed.


(** ** The pending timeout along a history *)

Lemma timer_inv_no_timer s acc :
  timers_ok s -> _timer (this s) = None -> timer_inv s acc.
Proof. intros Hok Ht. split; [exact Hok|]. intros h Hh. congruence. Qed.

Lemma timer_inv_construct options : timer_inv (item:=item) (construct options) None.
Proof.
  apply timer_inv_no_timer; unfold construct, timers_ok;
    destruct options as [[? ? [f|] ? ?]|]; reflexivity.
Qed.

Lemma timer_inv_flushCheck c s' :
  timers_ok c ->
  (forall h, _timer (this c) = Some h -> _flushing (this c) = true) ->
  _flushCheck c = Return s' ->
  timer_inv s' (Some c).
Proof.
  intros Hok Hpend E.
  destruct (_flushing (this c)) eqn:Hf.
  - destruct (get_saturated c) eqn:Hs.
    + destruct (_flushCheck_flushes c Hf Hs)
        as (s2 & E2 & _ & _ & _ & _ & Ht & _ & _ & Hok2).
      rewrite E2 in E. injection E as <-.
      apply timer_inv_no_timer; auto.
    + destruct (_flushCheck_unsaturated c Hf Hs)
        as (s2 & E2 & Hb & _ & Hc & Hf2 & Ht & _ & Hok2).
      rewrite E2 in E. injection E as <-.
      split; [auto|]. intros h _. split; [exact Hf2|]. split.
      * rewrite get_saturated_threshold in *. unfold get_length in *.
        rewrite Hb, (threshold_config _ _ Hc). exact Hs.
      * exists c. auto.
  - rewrite _flushCheck_paused in E by exact Hf. injection E as <-.
    apply timer_inv_no_timer; [exact Hok|].
    destruct (_timer (this c)) as [h|] eqn:Ht; [|reflexivity].
    specialize (Hpend h eq_refl). congruence.
Qed.

Lemma timer_inv_exec op s s' acc :
  timer_inv s acc -> exec op s = Return s' ->
  timer_inv s'
    (match check_point op s with Some c => Some c | None => acc end).
Proof.
  intros [Hok Hpend] E.
  assert (Hadd : forall c, timers c = timers s ->
            _timer (this c) = _timer (this s) ->
            _intervalThreshold (this c) = _intervalThreshold (this s) ->
            _flushing (this c) = _flushing (this s) ->
            forall r, _flushCheck c = Return r -> timer_inv r (Some c)).
  { intros c Htm Ht Hit Hf r Er. apply (timer_inv_flushCheck c r); auto.
    - unfold timers_ok in *. rewrite Htm, Ht, Hit. exact Hok.
    - intros h Hh. rewrite Hf. rewrite Ht in Hh. apply (Hpend h Hh). }
  assert (Hdrop : timer_inv (debug (DebugSafety SAFETY_QUEUE_LIMIT) s) acc).
  { split; [exact Hok|]. exact Hpend. }
  destruct op as [v|v| | | |h]; simpl in *.
  - unfold push in E. destruct (_ <? _).
    + injection E as <-. exact Hdrop.
    + apply (Hadd (q_push v s)); auto.
  - unfold unshift in E. destruct (_ <? _).
    + injection E as <-. exact Hdrop.
    + apply (Hadd (q_unshift v s)); auto.
  - unfold empty in E. injection E as <-.
    apply timer_inv_no_timer; [|apply timer_clearTimer].
    apply timers_ok_clearTimer. exact Hok.
  - unfold pause in E. injection E as <-.
    apply timer_inv_no_timer; [|apply timer_clearTimer].
    apply timers_ok_clearTimer. exact Hok.
  - unfold resume in E.
    apply (timer_inv_flushCheck
             (set_this (set_flushing true (this s)) s) s');
      [exact Hok|reflexivity|exact E].
  - unfold fire in E. destruct (timers s !! h) as [ms|] eqn:Hl.
    + assert (Hh : _timer (this s) = Some h).
      { unfold timers_ok in Hok. rewrite Hok in Hl.
        destruct (_timer (this s)) as [h'|].
        - apply lookup_singleton_Some in Hl. destruct Hl as [-> _]. reflexivity.
        - rewrite lookup_empty in Hl. discriminate. }
      destruct (_flush_Return (expire h s)) as (s2 & E2 & Hthis & _ & Htm & _).
      rewrite E2 in E. injection E as <-.
      apply timer_inv_no_timer; [|rewrite Hthis; reflexivity].
      unfold timers_ok in *. rewrite Htm, Hthis. simpl.
      unfold _clearTimer. simpl. rewrite Hh. simpl.
      rewrite Hok, Hh, delete_singleton_eq. apply delete_empty.
    + injection E as <-. split; [exact Hok|exact Hpend].
Qed.

Lemma timer_inv_run ops : forall s acc s',
  timer_inv s acc -> run ops s = Return s' ->
  timer_inv s' (last_check ops s acc).
Proof.
  induction ops as [|op ops IH]; intros s acc s' Hinv E; simpl in *.
  - injection E as <-. exact Hinv.
  - destruct (exec op s) as [s1|e] eqn:E1; simpl in E; [|discriminate].
    apply (IH s1); [|exact E].
    apply (timer_inv_exec op s s1 acc Hinv E1).
Qed.


(** The runtime's table agrees with [_timer] in every reachable state. *)
Lemma timers_ok_reachable options ops s :
  run ops (construct options) = Return s -> timers_ok s.
Proof.
  intros E.
  apply (timer_inv_run ops _ None s (timer_inv_construct options) E).
Qed.





(** ** The batch handed to the 'flush' listeners *)

(** C4, as the code has it.  In non-cargo mode a flush calls the 'flush'
    listeners with the queue's own buffer array, which holds the entire
    buffer contents at that time, and with the saturation flag; when they
    return, the queue sets the length of that same array to zero and keeps
    it as its buffer.  No other array is touched. *)
Theorem flush_emits_own_buffer_then_truncates s :
  _cargoMode (this s) = false ->
  exists s', _flush s = Return s'
    /\ out s' = out s ++
         [ if get_saturated s then DebugSaturated (get_length s)
           else DebugInterval (_intervalThreshold (this s));
           EmitFlush (_q (this s)) (buf s) (get_saturated s) ]
    /\ array s' (_q (this s)) = []
    /\ _q (this s') = _q (this s)
    /\ buf s' = []
    /\ forall l, l <> _q (this s) -> array s' l = array s l.
Proof.
  intros _.
  destruct (_flush_Return s) as (s' & E & Hthis & Hheap & _ & _ & Ho).
  exists s'. split; [exact E|]. split; [exact Ho|].
  unfold buf, array. rewrite Hthis, Hheap. simpl.
  rewrite lookup_total_insert_eq. repeat split; auto.
  intros l Hl. apply lookup_total_insert_ne. congruence.
Qed.

(** ** The cargo handler *)

Lemma cargo_calls_flushCheck s s' :
  _flushCheck s = Return s' -> cargo_calls s' = cargo_calls s.
Proof.
  intros E. unfold cargo_calls.
  destruct (_flushing (this s)) eqn:Hf.
  - destruct (get_saturated s) eqn:Hs.
    + destruct (_flushCheck_flushes s Hf Hs) as (s2 & E2 & _ & Ho & _).
      rewrite E2 in E. injection E as <-. rewrite Ho, List.filter_app.
      unfold flush_output. destruct (get_saturated s); simpl; apply app_nil_r.
    + destruct (_flushCheck_unsaturated s Hf Hs) as (s2 & E2 & _ & Ho & _).
      rewrite E2 in E. injection E as <-. rewrite Ho. reflexivity.
  - rewrite _flushCheck_paused in E by exact Hf. injection E as <-.
    reflexivity.
Qed.

Lemma cargo_calls_exec op s s' :
  exec op s = Return s' -> cargo_calls s' = cargo_calls s.
Proof.
  destruct op as [v|v| | | |h]; simpl; intros E.
  - unfold push in E. destruct (_ <? _).
    + injection E as <-. unfold cargo_calls. simpl.
      rewrite List.filter_app. apply app_nil_r.
    + apply cargo_calls_flushCheck in E. exact E.
  - unfold unshift in E. destruct (_ <? _).
    + injection E as <-. unfold cargo_calls. simpl.
      rewrite List.filter_app. apply app_nil_r.
    + apply cargo_calls_flushCheck in E. exact E.
  - injection E as <-. unfold cargo_calls. rewrite out_clearTimer. reflexivity.
  - injection E as <-. unfold cargo_calls. rewrite out_clearTimer. reflexivity.
  - apply cargo_calls_flushCheck in E. exact E.
  - unfold fire in E. destruct (timers s !! h).
    + destruct (_flush_Return (expire h s)) as (s2 & E2 & _ & _ & _ & _ & Ho).
      rewrite E2 in E. injection E as <-. unfold cargo_calls.
      rewrite Ho, List.filter_app. unfold flush_output.
      destruct (get_saturated _); simpl; apply app_nil_r.
    + injection E as <-. reflexivity.
Qed.

(** No operation and no timer expiry ever calls the cargo handler. *)
Lemma cargo_handler_never_called ops : forall s s',
  run ops s = Return s' -> cargo_calls s' = cargo_calls s.
Proof.
  induction ops as [|op ops IH]; intros s s' E; simpl in E.
  - injection E as <-. reflexivity.
  - destruct (exec op s) as [s1|e] eqn:E1; simpl in E; [|discriminate].
    rewrite (IH s1 s' E). apply (cargo_calls_exec op s s1 E1).
Qed.


(** ** The length of the buffer *)

Lemma _flushCheck_buf s s' :
  _flushCheck s = Return s' ->
  config (this s') = config (this s) /\ (buf s' = buf s \/ buf s' = []).
Proof.
  intros E. destruct (_flushing (this s)) eqn:Hf.
  - destruct (get_saturated s) eqn:Hs.
    + destruct (_flushCheck_flushes s Hf Hs) as (s2 & E2 & Hb & _ & Hc & _).
      rewrite E2 in E. injection E as <-. auto.
    + destruct (_flushCheck_unsaturated s Hf Hs) as (s2 & E2 & Hb & _ & Hc & _).
      rewrite E2 in E. injection E as <-. auto.
  - rewrite _flushCheck_paused in E by exact Hf. injection E as <-. auto.
Qed.

Lemma exec_length op s s' :
  exec op s = Return s' ->
  config (this s') = config (this s)
  /\ Z.of_nat (get_length s')
       <= Z.max (Z.of_nat (get_length s)) (_safetyLimit (this s) + 1).
Proof.
  assert (Hclear : forall r : State item,
            config (this (_clearTimer r)) = config (this r)).
  { intros r. unfold _clearTimer. destruct (_timer (this r)); reflexivity. }
  destruct op as [v|v| | | |h]; simpl; intros E.
  - unfold push in E. destruct (_ <? _) eqn:Hd.
    + injection E as <-. split; [reflexivity|].
      change (get_length (debug (DebugSafety SAFETY_QUEUE_LIMIT) s))
        with (get_length s). lia.
    + apply Z.ltb_ge in Hd. apply _flushCheck_buf in E.
      destruct E as [Hc [Hb|Hb]]; (split; [exact Hc|]);
        unfold get_length in *; rewrite Hb; [|simpl; lia].
      rewrite buf_q_push, length_app. simpl. lia.
  - unfold unshift in E. destruct (_ <? _) eqn:Hd.
    + injection E as <-. split; [reflexivity|].
      change (get_length (debug (DebugSafety SAFETY_QUEUE_LIMIT) s))
        with (get_length s). lia.
    + apply Z.ltb_ge in Hd. apply _flushCheck_buf in E.
      destruct E as [Hc [Hb|Hb]]; (split; [exact Hc|]);
        unfold get_length in *; rewrite Hb; [|simpl; lia].
      rewrite buf_q_unshift. simpl length. lia.
  - injection E as <-. split; [rewrite Hclear; reflexivity|].
    unfold get_length. rewrite buf_clearTimer, buf_q_truncate. simpl. lia.
  - injection E as <-. split; [rewrite Hclear; reflexivity|].
    unfold get_length. rewrite buf_clearTimer.
    change (buf (set_this (set_flushing false (this s)) s)) with (buf s). lia.
  - unfold resume in E. apply _flushCheck_buf in E.
    destruct E as [Hc [Hb|Hb]]; (split; [exact Hc|]);
      unfold get_length; rewrite Hb;
      [change (buf (set_this (set_flushing true (this s)) s)) with (buf s)
      |simpl]; lia.
  - unfold fire in E. destruct (timers s !! h).
    + destruct (_flush_Return (expire h s)) as (s2 & E2 & Hthis & Hheap & _).
      rewrite E2 in E. injection E as <-. split.
      * rewrite Hthis. reflexivity.
      * unfold get_length, buf, array. rewrite Hthis, Hheap. simpl.
        rewrite lookup_total_insert_eq. simpl. lia.
    + injection E as <-. split; [reflexivity|]. lia.
Qed.

(** The buffer never gets longer than [_safetyLimit + 1]: the guards of
    lines 48 and 61 let an item in while the length is at most
    [_safetyLimit]. *)
Lemma buffer_length_bound ops : forall s s',
  run ops s = Return s' ->
  _safetyLimit (this s') = _safetyLimit (this s)
  /\ Z.of_nat (get_length s')
       <= Z.max (Z.of_nat (get_length s)) (_safetyLimit (this s) + 1).
Proof.
  induction ops as [|op ops IH]; intros s s' E; simpl in E.
  - injection E as <-. split; [reflexivity|lia].
  - destruct (exec op s) as [s1|e] eqn:E1; simpl in E; [|discriminate].
    destruct (exec_length op s s1 E1) as [Hc1 Hl1].
    destruct (IH s1 s' E) as [Hs Hl].
    assert (Hsl : _safetyLimit (this s1) = _safetyLimit (this s)).
    { unfold config in Hc1. congruence. }
    rewrite Hsl in *. split; [exact Hs|lia].
Qed.

(** ** Construction *)

(** C9 on the code: [new BatchedQueue(options)] raises a ReferenceError for
    every [options], present or not, because line 18 reads [this] in the
    constructor of a class with an [extends] clause before any
    [super(...)] call. *)
Lemma constructor_throws options :
  constructor (item:=item) options = Throw ReferenceError.
Proof. reflexivity. Qed.

(** What lines 17-29 assign on an initialised [this] when every numeric
    option is absent or zero and no cargo handler is given. *)
Lemma construct_defaults options :
  match options with
  | None => True
  | Some o =>
      cargo o = None
      /\ (limit o = None \/ limit o = Some 0)
      /\ (interval o = None \/ interval o = Some 0)
      /\ (safetyLimit o = None \/ safetyLimit o = Some 0)
  end ->
  construct (item:=item) options = construct None
  /\ this (construct (item:=item) options) =
       mkQueue 0%nat 10000 1000 false None None 2000000 true None
  /\ buf (construct (item:=item) options) = [].
Proof.
  destruct options as [[l i c cl sl]|]; simpl.
  - intros (-> & Hl & Hi & Hs).
    destruct Hl as [-> | ->], Hi as [-> | ->], Hs as [-> | ->];
      repeat split; reflexivity.
  - intros _. repeat split; reflexivity.
Qed.


(** * Further properties of the methods *)

(** ** Timer expiry *)

Lemma fire_pending s h :
  timers_ok s -> _timer (this s) = Some h ->
  exists s', fire h s = Return s'
    /\ out s' = out s ++ flush_output s
    /\ buf s' = []
    /\ this s' = set_timer None (this s)
    /\ timers s' = ∅
    /\ next_timer s' = next_timer s.
Proof.
  intros Hok Ht. unfold timers_ok in Hok. rewrite Ht in Hok.
  unfold fire. rewrite Hok, lookup_singleton_eq.
  destruct (_flush_Return (expire h s))
    as (s' & E & Hthis & Hheap & Htm & Hn & Ho).
  exists s'. split; [exact E|]. split; [exact Ho|]. split; [|split; [|split]].
  - unfold buf, array. rewrite Hthis, Hheap. simpl.
    apply lookup_total_insert_eq.
  - exact Hthis.
  - rewrite Htm. unfold _clearTimer. simpl. rewrite Ht. simpl.
    rewrite Hok, delete_singleton_eq. apply delete_empty.
  - exact Hn.
Qed.

Lemma fire_unscheduled s h : timers s = ∅ -> fire h s = Return s.
Proof. intros H. unfold fire. rewrite H, lookup_empty. reflexivity. Qed.

(** X3. Items pushed onto an empty, idle queue without reaching the
    flush-triggering size are flushed by the expiry of the timeout the
    first push armed: one 'flush' event with exactly those items in
    insertion order and [saturated = false].  The buffer is empty
    afterwards, no timeout is left, and a later expiry of the same handle
    does nothing. *)
Theorem interval_flush_after_pushes s vs :
  _flushing (this s) = true ->
  buf s = [] ->
  _timer (this s) = None ->
  timers s = ∅ ->
  vs <> [] ->
  Z.of_nat (length vs) <= _safetyLimit (this s) + 1 ->
  ge_num (length vs) (threshold (this s)) = false ->
  exists s1 s2,
    push_all vs s = Return s1
    /\ out s1 = out s
    /\ fire (next_timer s) s1 = Return s2
    /\ out s2 = out s ++ [DebugInterval (_intervalThreshold (this s));
                          EmitFlush (_q (this s)) vs false]
    /\ buf s2 = []
    /\ _timer (this s2) = None
    /\ timers s2 = ∅
    /\ fire (next_timer s) s2 = Return s2.
Proof.
  intros Hf Hb Ht Htm Hne Hsafe Hsat.
  assert (Hl0 : get_length s = 0%nat).
  { unfold get_length. rewrite Hb. reflexivity. }
  assert (Hok : timers_ok s).
  { unfold timers_ok. rewrite Ht. exact Htm. }
  destruct (push_all_below vs s)
    as (s1 & E1 & Hb1 & Ho1 & Hc1 & _ & Ht1 & _ & Hok1).
  { exact Hf. }
  { rewrite Hl0. simpl. exact Hsafe. }
  { rewrite Hl0. exact Hsat. }
  rewrite Hb in Hb1. simpl in Hb1. specialize (Hok1 Hok).
  assert (Ht1' : _timer (this s1) = Some (next_timer s)).
  { rewrite Ht1, Ht. destruct vs; [congruence|reflexivity]. }
  destruct (fire_pending s1 (next_timer s) Hok1 Ht1')
    as (s2 & E2 & Ho2 & Hb2 & Hthis2 & Htm2 & _).
  assert (Hs1 : get_saturated s1 = false).
  { rewrite get_saturated_threshold. unfold get_length.
    rewrite Hb1, (threshold_config _ _ Hc1). exact Hsat. }
  exists s1, s2. split; [exact E1|]. split; [exact Ho1|].
  split; [exact E2|]. split; [|split; [exact Hb2|split; [|split]]].
  - rewrite Ho2, Ho1. unfold flush_output. rewrite Hs1, Hb1.
    unfold config in Hc1.
    replace (_intervalThreshold (this s1)) with (_intervalThreshold (this s))
      by congruence.
    replace (_q (this s1)) with (_q (this s)) by congruence.
    reflexivity.
  - rewrite Hthis2. reflexivity.
  - exact Htm2.
  - apply fire_unscheduled. exact Htm2.
Qed.


(** ** [unshift] *)

(** X4. An [unshift] that is accepted puts the item in front of the
    buffered ones.  With flushing enabled and the buffer brought to the
    flush-triggering size, the same call flushes, and the batch has the new
    item first, followed by the items that were buffered, with
    [saturated = true]; otherwise nothing is output and the buffer is the
    new item followed by the old contents. *)
Theorem unshift_puts_item_first s v :
  Z.of_nat (get_length s) <= _safetyLimit (this s) ->
  exists s', unshift v s = Return s'
    /\ if _flushing (this s)
          && ge_num (S (get_length s)) (threshold (this s))
       then out s' = out s ++ [DebugSaturated (S (get_length s));
                               EmitFlush (_q (this s)) (v :: buf s) true]
            /\ buf s' = []
       else out s' = out s /\ buf s' = v :: buf s.
Proof.
  intros Hlen. rewrite unshift_accepted by exact Hlen.
  assert (Hsat : get_saturated (q_unshift v s)
                 = ge_num (S (get_length s)) (threshold (this s))).
  { rewrite get_saturated_threshold, length_q_unshift. reflexivity. }
  destruct (_flushing (this s)) eqn:Hf; simpl.
  - destruct (ge_num _ _) eqn:Hg.
    + destruct (_flushCheck_flushes (q_unshift v s) Hf Hsat)
        as (s' & E & Hb & Ho & _).
      exists s'. split; [exact E|]. split; [|exact Hb].
      rewrite Ho. unfold flush_output.
      rewrite Hsat, length_q_unshift, buf_q_unshift. reflexivity.
    + destruct (_flushCheck_unsaturated (q_unshift v s) Hf Hsat)
        as (s' & E & Hb & Ho & _).
      exists s'. split; [exact E|]. split; [exact Ho|].
      rewrite Hb. apply buf_q_unshift.
  - rewrite _flushCheck_paused by exact Hf.
    eexists. split; [reflexivity|]. split; [reflexivity|].
    apply buf_q_unshift.
Qed.

(** ** [empty] *)

(** X1. [empty()] discards the buffered items without handing them to
    anyone: the buffer is empty, nothing is output, whether flushing is
    enabled is unchanged, and the pending timeout is cancelled, so that no
    timer expiry has any effect afterwards. *)
Theorem empty_discards_without_flush s :
  timers_ok s ->
  exists s', empty s = Return s'
    /\ buf s' = []
    /\ out s' = out s
    /\ _flushing (this s') = _flushing (this s)
    /\ _timer (this s') = None
    /\ timers s' = ∅
    /\ forall h, fire h s' = Return s'.
Proof.
  intros Hok. unfold empty. eexists. split; [reflexivity|].
  assert (Hok' : timers_ok (_clearTimer (q_truncate s))).
  { apply timers_ok_clearTimer. exact Hok. }
  unfold timers_ok in Hok'. rewrite timer_clearTimer in Hok'.
  rewrite buf_clearTimer, buf_q_truncate, out_clearTimer,
    flushing_clearTimer, timer_clearTimer.
  repeat split; auto.
  intros h. apply fire_unscheduled. exact Hok'.
Qed.

(** ** A paused queue *)

Lemma unshift_paused v s :
  _flushing (this s) = false ->
  exists s', unshift v s = Return s'
    /\ this s' = this s /\ timers s' = timers s
    /\ flushes s' = flushes s.
Proof.
  intros Hf. unfold unshift. destruct (_ <? _).
  - eexists. split; [reflexivity|]. unfold debug. rewrite flushes_log.
    simpl. rewrite app_nil_r. auto.
  - rewrite _flushCheck_paused by exact Hf.
    eexists. split; [reflexivity|]. auto.
Qed.

Lemma paused_exec op s s' :
  _flushing (this s) = false -> _timer (this s) = None -> timers s = ∅ ->
  not_resume op = true ->
  exec op s = Return s' ->
  _flushing (this s') = false /\ _timer (this s') = None /\ timers s' = ∅
  /\ flushes s' = flushes s.
Proof.
  intros Hf Ht Htm Hop E.
  destruct op as [v|v| | | |h]; simpl in *; try discriminate.
  - destruct (push_paused v s Hf) as (s1 & E1 & Hthis & Htm1 & _ & Hfl & _).
    rewrite E1 in E. injection E as <-. rewrite Hthis, Htm1. auto.
  - destruct (unshift_paused v s Hf) as (s1 & E1 & Hthis & Htm1 & Hfl).
    rewrite E1 in E. injection E as <-. rewrite Hthis, Htm1. auto.
  - unfold empty, _clearTimer in E. simpl in E. rewrite Ht in E.
    injection E as <-. auto.
  - unfold pause, _clearTimer in E. simpl in E. rewrite Ht in E.
    injection E as <-. auto.
  - rewrite fire_unscheduled in E by exact Htm. injection E as <-. auto.
Qed.

(** X2. Once [pause()] has returned, nothing but [resume()] makes the
    queue flush: after any sequence of pushes, unshifts, [empty()],
    further [pause()] calls and timer expiries, no 'flush' event and no
    cargo call has been added, flushing is still disabled and no timeout
    is scheduled. *)
Theorem paused_queue_never_flushes ops : forall s s',
  timers_ok s ->
  forallb not_resume ops = true ->
  run (OpPause :: ops) s = Return s' ->
  flushes s' = flushes s
  /\ _flushing (this s') = false
  /\ _timer (this s') = None
  /\ timers s' = ∅.
Proof.
  intros s s' Hok Hops E. rewrite run_cons in E. simpl in E.
  set (p := _clearTimer (set_this (set_flushing false (this s)) s)) in E.
  assert (Hp : _flushing (this p) = false /\ _timer (this p) = None
               /\ timers p = ∅ /\ flushes p = flushes s).
  { unfold p. rewrite flushing_clearTimer, timer_clearTimer.
    assert (Hok' : timers_ok p).
    { unfold p. apply timers_ok_clearTimer. exact Hok. }
    unfold timers_ok, p in Hok'. rewrite timer_clearTimer in Hok'.
    unfold flushes. rewrite out_clearTimer. auto. }
  clearbody p. destruct Hp as (Hf & Ht & Htm & Hfl). rewrite <- Hfl.
  clear Hfl Hok s. revert p Hf Ht Htm E.
  induction ops as [|op ops IH]; intros p Hf Ht Htm E; simpl in *.
  - injection E as <-. auto.
  - apply andb_prop in Hops. destruct Hops as [Hop Hops].
    destruct (exec op p) as [p1|e] eqn:E1; simpl in E; [|discriminate].
    destruct (paused_exec op p p1 Hf Ht Htm Hop E1) as (Hf1 & Ht1 & Htm1 & Hfl1).
    rewrite <- Hfl1. apply IH; auto.
Qed.


(** ** Nothing lost, nothing duplicated *)

Lemma delivered_log e s : delivered (log e s) = delivered s ++ batch_of e.
Proof.
  unfold delivered, batches. simpl. rewrite flat_map_app. simpl.
  rewrite app_nil_r. reflexivity.
Qed.

Lemma batches_flush_output s : batches (flush_output s) = buf s.
Proof.
  unfold batches, flush_output. simpl.
  destruct (get_saturated s); simpl; apply app_nil_r.
Qed.

Lemma delivered_flushCheck c s' :
  _flushCheck c = Return s' ->
  delivered s' ++ buf s' = delivered c ++ buf c
  /\ config (this s') = config (this c)
  /\ (length (buf s') <= length (buf c))%nat.
Proof.
  intros E. destruct (_flushing (this c)) eqn:Hf.
  - destruct (get_saturated c) eqn:Hs.
    + destruct (_flushCheck_flushes c Hf Hs) as (s2 & E2 & Hb & Ho & Hc & _).
      rewrite E2 in E. injection E as <-. unfold delivered, batches.
      rewrite Ho, flat_map_app. fold (batches (flush_output c)).
      rewrite batches_flush_output, Hb, app_nil_r. simpl. auto with lia.
    + destruct (_flushCheck_unsaturated c Hf Hs) as (s2 & E2 & Hb & Ho & Hc & _).
      rewrite E2 in E. injection E as <-. unfold delivered.
      rewrite Ho, Hb. auto.
  - rewrite _flushCheck_paused in E by exact Hf. injection E as <-. auto.
Qed.

Lemma delivered_exec op s s' :
  push_or_control op = true ->
  exec op s = Return s' ->
  delivered s' ++ buf s' = delivered s ++ buf s ++ accepts op s.
Proof.
  intros Hop E.
  destruct op as [v|v| | | |h]; simpl in Hop; try discriminate;
    unfold accepts; simpl exec in E.
  - unfold push in E. destruct (_ <? _).
    + injection E as <-. unfold debug. rewrite delivered_log. simpl.
      rewrite !app_nil_r. reflexivity.
    + apply delivered_flushCheck in E. destruct E as (Hd & _).
      rewrite buf_q_push in Hd. exact Hd.
  - injection E as <-. unfold delivered.
    rewrite out_clearTimer, buf_clearTimer, app_nil_r. reflexivity.
  - unfold resume in E. apply delivered_flushCheck in E.
    destruct E as (Hd & _). rewrite app_nil_r. exact Hd.
  - rewrite app_nil_r. unfold fire in E. destruct (timers s !! h).
    + destruct (_flush_Return (expire h s))
        as (s2 & E2 & Hthis & Hheap & _ & _ & Ho).
      rewrite E2 in E. injection E as <-.
      assert (Hb : buf s2 = []).
      { unfold buf, array. rewrite Hthis, Hheap. simpl.
        apply lookup_total_insert_eq. }
      unfold delivered, batches.
      rewrite Ho, flat_map_app. fold (batches (flush_output (expire h s))).
      rewrite batches_flush_output, Hb, app_nil_r. reflexivity.
    + injection E as <-. reflexivity.
Qed.

(** X5. As long as the 'flush' listeners only read the batch while they
    are called (they neither call the queue nor change the array), along
    every history of pushes, [pause()], [resume()] and timer expiries each
    item that a push put into the buffer is accounted for exactly once and
    in order: the batches handed over so far, followed by the buffer, are
    what was handed over before, what was buffered before and the items
    the pushes added, in push order.  The only items missing are those a
    push dropped because the buffer was longer than [_safetyLimit]. *)
Theorem accepted_items_delivered_in_order ops : forall s s',
  forallb push_or_control ops = true ->
  run ops s = Return s' ->
  delivered s' ++ buf s' = delivered s ++ buf s ++ accepted ops s.
Proof.
  induction ops as [|op ops IH]; intros s s' Hops E; simpl in E.
  - injection E as <-. simpl. rewrite app_nil_r. reflexivity.
  - simpl in Hops. apply andb_prop in Hops. destruct Hops as [Hop Hops].
    simpl accepted.
    destruct (exec op s) as [s1|e] eqn:E1; simpl in E; [|discriminate].
    rewrite (IH s1 s' Hops E), (app_assoc (delivered s1)),
      (delivered_exec op s s1 Hop E1), <- !app_assoc.
    reflexivity.
Qed.

(** ** Bounds on the buffer *)

(** X6. No history of operations and timer expiries takes the buffer past
    [_safetyLimit + 1] items: a queue that starts within that bound stays
    within it. *)
Theorem length_stays_within_limit_plus_one ops : forall s s',
  Z.of_nat (get_length s) <= _safetyLimit (this s) + 1 ->
  run ops s = Return s' ->
  Z.of_nat (get_length s') <= _safetyLimit (this s') + 1.
Proof.
  intros s s' Hlen E.
  destruct (buffer_length_bound ops s s' E) as [Hs Hl].
  rewrite Hs. lia.
Qed.

Lemma unsaturated_flushCheck c s' :
  ge_num 0 (threshold (this c)) = false ->
  _flushCheck c = Return s' ->
  _flushing (this s') = true -> get_saturated s' = false.
Proof.
  intros H0 E Hf'. destruct (_flushing (this c)) eqn:Hf.
  - destruct (get_saturated c) eqn:Hs.
    + destruct (_flushCheck_flushes c Hf Hs) as (s2 & E2 & Hb & _ & Hc & _).
      rewrite E2 in E. injection E as <-.
      rewrite get_saturated_threshold. unfold get_length.
      rewrite Hb, (threshold_config _ _ Hc). exact H0.
    + destruct (_flushCheck_unsaturated c Hf Hs) as (s2 & E2 & Hb & _ & Hc & _).
      rewrite E2 in E. injection E as <-.
      rewrite get_saturated_threshold in *. unfold get_length in *.
      rewrite Hb, (threshold_config _ _ Hc). exact Hs.
  - rewrite _flushCheck_paused in E by exact Hf. injection E as <-.
    congruence.
Qed.

Lemma unsaturated_exec op s s' :
  ge_num 0 (threshold (this s)) = false ->
  (_flushing (this s) = true -> get_saturated s = false) ->
  exec op s = Return s' ->
  _flushing (this s') = true -> get_saturated s' = false.
Proof.
  intros H0 Hinv E.
  assert (Hempty : forall r : State item,
            buf r = [] -> threshold (this r) = threshold (this s) ->
            get_saturated r = false).
  { intros r Hb Hth. rewrite get_saturated_threshold. unfold get_length.
    rewrite Hb, Hth. exact H0. }
  destruct op as [v|v| | | |h]; simpl in E.
  - unfold push in E. destruct (_ <? _).
    + injection E as <-. exact Hinv.
    + apply (unsaturated_flushCheck (q_push v s)); assumption.
  - unfold unshift in E. destruct (_ <? _).
    + injection E as <-. exact Hinv.
    + apply (unsaturated_flushCheck (q_unshift v s)); assumption.
  - injection E as <-. intros _. apply Hempty.
    + rewrite buf_clearTimer. apply buf_q_truncate.
    + unfold _clearTimer. simpl. destruct (_timer (this s)); reflexivity.
  - injection E as <-. rewrite flushing_clearTimer. discriminate.
  - apply (unsaturated_flushCheck (set_this (set_flushing true (this s)) s));
      assumption.
  - unfold fire in E. destruct (timers s !! h).
    + destruct (_flush_Return (expire h s)) as (s2 & E2 & Hthis & Hheap & _).
      rewrite E2 in E. injection E as <-. intros _. apply Hempty.
      * unfold buf, array. rewrite Hthis, Hheap. simpl.
        apply lookup_total_insert_eq.
      * rewrite Hthis. reflexivity.
    + injection E as <-. exact Hinv.
Qed.

(** X7. When an empty buffer does not count as saturated (the
    flush-triggering size is positive), a queue with flushing enabled is
    never left saturated by an operation or a timer expiry: whatever
    reached the flush-triggering size has been flushed within the call. *)
Theorem flushing_queue_never_left_saturated ops : forall s s',
  ge_num 0 (threshold (this s)) = false ->
  (_flushing (this s) = true -> get_saturated s = false) ->
  run ops s = Return s' ->
  _flushing (this s') = true ->
  get_saturated s' = false.
Proof.
  induction ops as [|op ops IH]; intros s s' H0 Hinv E; simpl in E.
  - injection E as <-. exact Hinv.
  - destruct (exec op s) as [s1|e] eqn:E1; simpl in E; [|discriminate].
    destruct (exec_length op s s1 E1) as [Hc _].
    apply (IH s1 s'); [|exact (unsaturated_exec op s s1 H0 Hinv E1)|exact E].
    rewrite (threshold_config _ _ Hc). exact H0.
Qed.

(** ** What stays as constructed *)

Lemma array_flushCheck c s' l :
  _flushCheck c = Return s' -> l <> _q (this c) -> array s' l = array c l.
Proof.
  intros E Hl. destruct (_flushing (this c)) eqn:Hf.
  - destruct (get_saturated c) eqn:Hs.
    + destruct (_flushCheck_flushes c Hf Hs)
        as (s2 & E2 & _ & _ & _ & _ & _ & _ & Hheap & _).
      rewrite E2 in E. injection E as <-. unfold array. rewrite Hheap.
      apply lookup_total_insert_ne. congruence.
    + destruct (_timer (this c)) as [h|] eqn:Ht.
      * rewrite (_flushCheck_pending c h Ht Hs) in E. injection E as <-.
        reflexivity.
      * rewrite (_flushCheck_arm c Hf Hs Ht) in E. injection E as <-.
        reflexivity.
  - rewrite _flushCheck_paused in E by exact Hf. injection E as <-.
    reflexivity.
Qed.

Lemma array_set_array s l xs :
  l <> _q (this s) -> array (set_array (_q (this s)) xs s) l = array s l.
Proof.
  intros Hl. unfold array. simpl. apply lookup_total_insert_ne. congruence.
Qed.

Lemma array_clearTimer s l : array (_clearTimer s) l = array s l.
Proof. unfold _clearTimer. destruct (_timer (this s)); reflexivity. Qed.

Lemma array_exec op s s' l :
  exec op s = Return s' -> l <> _q (this s) -> array s' l = array s l.
Proof.
  intros E Hl. destruct op as [v|v| | | |h]; simpl in E.
  - unfold push in E. destruct (_ <? _).
    + injection E as <-. reflexivity.
    + rewrite (array_flushCheck _ _ l E Hl). apply array_set_array. exact Hl.
  - unfold unshift in E. destruct (_ <? _).
    + injection E as <-. reflexivity.
    + rewrite (array_flushCheck _ _ l E Hl). apply array_set_array. exact Hl.
  - injection E as <-. rewrite array_clearTimer.
    apply array_set_array. exact Hl.
  - injection E as <-. rewrite array_clearTimer. reflexivity.
  - apply (array_flushCheck _ _ l E Hl).
  - unfold fire in E. destruct (timers s !! h).
    + destruct (_flush_Return (expire h s)) as (s2 & E2 & _ & Hheap & _).
      rewrite E2 in E. injection E as <-. unfold array. rewrite Hheap.
      apply lookup_total_insert_ne. simpl. congruence.
    + injection E as <-. reflexivity.
Qed.

(** X8. No operation and no timer expiry changes what the constructor set
    up: the limits, the interval, the mode and the cargo settings stay, the
    queue keeps one and the same array as its buffer for its whole life,
    and no other array is ever written to. *)
Theorem configuration_and_buffer_array_fixed ops : forall s s',
  run ops s = Return s' ->
  config (this s') = config (this s)
  /\ forall l, l <> _q (this s) -> array s' l = array s l.
Proof.
  induction ops as [|op ops IH]; intros s s' E; simpl in E.
  - injection E as <-. auto.
  - destruct (exec op s) as [s1|e] eqn:E1; simpl in E; [|discriminate].
    destruct (exec_length op s s1 E1) as [Hc _].
    destruct (IH s1 s' E) as [Hc' Ha].
    split; [congruence|]. intros l Hl.
    rewrite Ha; [apply (array_exec op s s1 l E1 Hl)|].
    unfold config in Hc. congruence.
Qed.


(** ** Pausing and resuming an unsaturated queue *)

Lemma timer_fresh_flushCheck c s' :
  timer_fresh c -> _flushCheck c = Return s' ->
  timer_fresh s' /\ (next_timer c <= next_timer s')%nat.
Proof.
  unfold timer_fresh. intros Hfr E. destruct (_flushing (this c)) eqn:Hf.
  - destruct (get_saturated c) eqn:Hs.
    + destruct (_flushCheck_flushes c Hf Hs)
        as (s2 & E2 & _ & _ & _ & _ & Ht & Hn & _).
      rewrite E2 in E. injection E as <-. rewrite Ht, Hn.
      split; [discriminate|lia].
    + destruct (_flushCheck_unsaturated c Hf Hs)
        as (s2 & E2 & _ & _ & _ & _ & Ht & Hn & _).
      rewrite E2 in E. injection E as <-. rewrite Ht, Hn.
      destruct (_timer (this c)) as [h0|]; simpl.
      * split; [|lia]. intros h Hh. injection Hh as <-. auto.
      * split; [|lia]. intros h Hh. injection Hh as <-. lia.
  - rewrite _flushCheck_paused in E by exact Hf. injection E as <-.
    split; [exact Hfr|lia].
Qed.

Lemma timer_fresh_exec op s s' :
  timer_fresh s -> exec op s = Return s' -> timer_fresh s'.
Proof.
  intros Hfr E.
  assert (Hnone : forall r : State item,
            _timer (this r) = None -> timer_fresh r).
  { intros r Hr h Hh. congruence. }
  destruct op as [v|v| | | |h]; simpl in E.
  - unfold push in E. destruct (_ <? _).
    + injection E as <-. exact Hfr.
    + apply (timer_fresh_flushCheck (q_push v s)); [exact Hfr|exact E].
  - unfold unshift in E. destruct (_ <? _).
    + injection E as <-. exact Hfr.
    + apply (timer_fresh_flushCheck (q_unshift v s)); [exact Hfr|exact E].
  - injection E as <-. apply Hnone, timer_clearTimer.
  - injection E as <-. apply Hnone, timer_clearTimer.
  - apply (timer_fresh_flushCheck (set_this (set_flushing true (this s)) s));
      [exact Hfr|exact E].
  - unfold fire in E. destruct (timers s !! h).
    + destruct (_flush_Return (expire h s)) as (s2 & E2 & Hthis & _).
      rewrite E2 in E. injection E as <-. apply Hnone.
      rewrite Hthis. reflexivity.
    + injection E as <-. exact Hfr.
Qed.

(** The timeout a reachable queue holds was created before the next one. *)
Lemma timer_fresh_reachable options ops s :
  run ops (construct options) = Return s -> timer_fresh s.
Proof.
  assert (H0 : timer_fresh (item:=item) (construct options)).
  { intros h Hh. destruct options as [[? ? [f|] ? ?]|]; discriminate. }
  revert H0. generalize (construct (item:=item) options). revert s.
  induction ops as [|op ops IH]; intros s s0 H0 E; simpl in E.
  - injection E as <-. exact H0.
  - destruct (exec op s0) as [s1|e] eqn:E1; simpl in E; [|discriminate].
    apply (IH s s1); [|exact E]. apply (timer_fresh_exec op s0 s1 H0 E1).
Qed.

(** X9. [pause()] followed by [resume()] on an unsaturated queue keeps the
    buffered items and outputs nothing, but restarts the interval: the
    timeout that was pending is cancelled, so its expiry has no effect, and
    a new timeout for the full [_intervalThreshold] is the only one
    scheduled. *)
Theorem pause_resume_restarts_interval s :
  timers_ok s ->
  timer_fresh s ->
  get_saturated s = false ->
  exists s1 s2,
    pause s = Return s1 /\ resume s1 = Return s2
    /\ buf s2 = buf s
    /\ out s2 = out s
    /\ _flushing (this s2) = true
    /\ _timer (this s2) = Some (next_timer s)
    /\ timers s2 = {[ next_timer s := _intervalThreshold (this s) ]}
    /\ forall h, _timer (this s) = Some h -> fire h s2 = Return s2.
Proof.
  intros Hok Hfr Hsat.
  set (s1 := _clearTimer (set_this (set_flushing false (this s)) s)).
  set (r := set_this (set_flushing true (this s1)) s1).
  assert (Hok1 : timers_ok s1).
  { unfold s1. apply timers_ok_clearTimer. exact Hok. }
  assert (Ht1 : _timer (this s1) = None) by apply timer_clearTimer.
  unfold timers_ok in Hok1. rewrite Ht1 in Hok1.
  assert (Hfacts : buf s1 = buf s /\ out s1 = out s
                   /\ next_timer s1 = next_timer s
                   /\ config (this s1) = config (this s)).
  { unfold s1, _clearTimer. simpl.
    destruct (_timer (this s)); simpl; auto. }
  destruct Hfacts as (Hb1 & Ho1 & Hn1 & Hc1).
  assert (Hsr : get_saturated r = false).
  { rewrite get_saturated_threshold in *. unfold get_length in *.
    change (buf r) with (buf s1). change (threshold (this r))
      with (threshold (this s1)).
    rewrite Hb1, (threshold_config _ _ Hc1). exact Hsat. }
  assert (Hit : _intervalThreshold (this s1) = _intervalThreshold (this s)).
  { unfold config in Hc1. congruence. }
  exists s1. eexists. split; [reflexivity|]. unfold resume. fold r.
  rewrite (_flushCheck_arm r eq_refl Hsr Ht1). split; [reflexivity|].
  simpl. rewrite Hok1, Hn1, Hit, insert_empty.
  split; [exact Hb1|]. split; [exact Ho1|]. repeat split.
  intros h Hh. unfold fire. simpl.
  rewrite lookup_singleton_ne; [reflexivity|].
  specialize (Hfr h Hh). lia.
Qed.


(** ** The flush-triggering size in either mode *)

(** X11. In either mode, with flushing enabled and an empty buffer,
    pushing exactly as many items as the flush-triggering size (the cargo
    limit in cargo mode, the flush limit otherwise) makes the last push
    emit one 'flush' event with all of them in insertion order and
    [saturated = true]; in cargo mode too the whole buffer goes to the
    'flush' listeners.  Fewer pushes output nothing. *)
Theorem push_threshold_items_emits_flush s vs (L : Z) :
  threshold (this s) = Some L ->
  _flushing (this s) = true ->
  buf s = [] ->
  1 <= L ->
  L <= _safetyLimit (this s) + 1 ->
  Z.of_nat (length vs) = L ->
  (exists s', push_all vs s = Return s'
     /\ out s' = out s ++ [DebugSaturated (length vs);
                           EmitFlush (_q (this s)) vs true]
     /\ buf s' = [] /\ _flushing (this s') = true)
  /\ (forall k, (k < length vs)%nat ->
        exists s'', push_all (take k vs) s = Return s''
          /\ out s'' = out s /\ buf s'' = take k vs).
Proof.
  intros Hth Hf Hb H1 Hsafe Hlen.
  assert (Hl0 : get_length s = 0%nat).
  { unfold get_length. rewrite Hb. reflexivity. }
  assert (Hprefix : forall ws, (length ws < length vs)%nat ->
            exists s1, push_all ws s = Return s1
              /\ buf s1 = ws /\ out s1 = out s
              /\ config (this s1) = config (this s)
              /\ _flushing (this s1) = true).
  { intros ws Hws.
    destruct (push_all_below ws s) as (s1 & E & Hb1 & Ho1 & Hc1 & Hf1 & _).
    - exact Hf.
    - rewrite Hl0. simpl. lia.
    - rewrite Hl0, Hth. simpl. apply Z.leb_gt. lia.
    - exists s1. rewrite Hb in Hb1. auto. }
  split.
  - destruct vs as [|w ws _] using rev_ind.
    { simpl in Hlen. lia. }
    rewrite length_app in *. simpl length in *.
    destruct (Hprefix ws) as (s1 & E1 & Hb1 & Ho1 & Hc1 & Hf1); [lia|].
    assert (Hl1 : get_length s1 = length ws).
    { unfold get_length. rewrite Hb1. reflexivity. }
    destruct (push_reaching w s1) as (s' & E & Hb' & Ho' & _ & Hf' & _).
    + exact Hf1.
    + rewrite Hl1. unfold config in Hc1.
      replace (_safetyLimit (this s1)) with (_safetyLimit (this s))
        by congruence.
      lia.
    + rewrite Hl1, (threshold_config _ _ Hc1), Hth. simpl.
      apply Z.leb_le. lia.
    + exists s'. rewrite push_all_app, E1. simpl.
      unfold push_all. simpl. rewrite E. simpl.
      rewrite Ho', Ho1, Hl1, Hb1, Hb'.
      replace (_q (this s1)) with (_q (this s))
        by (unfold config in Hc1; congruence).
      replace (length ws + 1)%nat with (S (length ws)) by lia.
      auto.
  - intros k Hk.
    destruct (Hprefix (take k vs)) as (s1 & E1 & Hb1 & Ho1 & _).
    + rewrite length_take. lia.
    + exists s1. auto.
Qed.

(** ** [pause] and [empty] together *)

(** X12. [pause()] and [empty()] are idempotent and commute: calling one
    of them twice is the same as calling it once, and the two leave the
    same queue in either order. *)
Theorem pause_empty_idempotent_commute s :
  run [OpPause; OpPause] s = run [OpPause] s
  /\ run [OpEmpty; OpEmpty] s = run [OpEmpty] s
  /\ run [OpPause; OpEmpty] s = run [OpEmpty; OpPause] s.
Proof.
  destruct s as [[q fl it cm cl cf sl f t] hp tm nt ou].
  unfold run, exec, bind, pause, empty, _clearTimer, q_truncate, set_array,
    set_this, set_flushing, set_timer, clearTimeout; simpl.
  destruct t as [h|]; simpl; rewrite ?insert_insert_eq; auto.
Qed.


(** ** Flushes in cargo mode *)

Lemma flushing_flushCheck c s' :
  _flushCheck c = Return s' -> _flushing (this s') = _flushing (this c).
Proof.
  intros E. destruct (_flushing (this c)) eqn:Hf.
  - destruct (get_saturated c) eqn:Hs.
    + destruct (_flushCheck_flushes c Hf Hs) as (s2 & E2 & _ & _ & _ & Hf2 & _).
      rewrite E2 in E. injection E as <-. exact Hf2.
    + destruct (_flushCheck_unsaturated c Hf Hs)
        as (s2 & E2 & _ & _ & _ & Hf2 & _).
      rewrite E2 in E. injection E as <-. exact Hf2.
  - rewrite _flushCheck_paused in E by exact Hf. injection E as <-.
    exact Hf.
Qed.

Lemma flushing_exec op s s' :
  not_pause op = true -> _flushing (this s) = true ->
  exec op s = Return s' -> _flushing (this s') = true.
Proof.
  intros Hop Hf E. destruct op as [v|v| | | |h]; simpl in *;
    try discriminate.
  - unfold push in E. destruct (_ <? _).
    + injection E as <-. exact Hf.
    + apply flushing_flushCheck in E. rewrite E. exact Hf.
  - unfold unshift in E. destruct (_ <? _).
    + injection E as <-. exact Hf.
    + apply flushing_flushCheck in E. rewrite E. exact Hf.
  - injection E as <-. rewrite flushing_clearTimer. exact Hf.
  - apply flushing_flushCheck in E. rewrite E. reflexivity.
  - unfold fire in E. destruct (timers s !! h).
    + destruct (_flush_Return (expire h s)) as (s2 & E2 & Hthis & _).
      rewrite E2 in E. injection E as <-. rewrite Hthis. exact Hf.
    + injection E as <-. exact Hf.
Qed.

(** X10. Whatever the mode, no operation and no timer expiry calls the
    cargo handler, and a flush never disables flushing: along a history
    without [pause()], a queue with flushing enabled keeps it enabled. *)
Theorem flush_never_calls_handler_nor_pauses ops : forall s s',
  run ops s = Return s' ->
  cargo_calls s' = cargo_calls s
  /\ (forallb not_pause ops = true ->
      _flushing (this s) = true -> _flushing (this s') = true).
Proof.
  intros s s' E. split; [exact (cargo_handler_never_called ops s s' E)|].
  revert s E. induction ops as [|op ops IH]; intros s E Hops Hf; simpl in *.
  - injection E as <-. exact Hf.
  - apply andb_prop in Hops. destruct Hops as [Hop Hops].
    destruct (exec op s) as [s1|e] eqn:E1; simpl in E; [|discriminate].
    apply (IH s1 E Hops). exact (flushing_exec op s s1 Hop Hf E1).
Qed.

End Facts.

(** * The properties on sample queues *)

(** C1 on [{cargo: f, cargoLimit: 2}] and four pushes: each second push
    flushes, but through the 'flush' event; the handler is never called and
    flushing stays enabled. *)
Lemma cargo_flush_bypasses_handler :
  exists s,
    push_all [1; 2; 3; 4]%nat (construct (Some opts_cargo2)) = Return s
    /\ _cargoMode (this s) = true
    /\ out s = [ DebugSaturated 2; EmitFlush 0%nat [1; 2]%nat true;
                 DebugSaturated 2; EmitFlush 0%nat [3; 4]%nat true ]
    /\ cargo_calls s = []
    /\ _flushing (this s) = true.
Proof. eexists. split; [vm_compute; reflexivity|]. vm_compute. auto. Qed.

(** C2 on [{limit: 5, safetyLimit: 1}]: the second push is accepted at
    length 1 and leaves two items in the buffer. *)
Lemma buffer_exceeds_safety_limit :
  exists s,
    push_all [1; 2]%nat (construct (Some opts_safety1)) = Return s
    /\ _safetyLimit (this s) = 1
    /\ buf s = [1; 2]%nat
    /\ _safetyLimit (this s) < Z.of_nat (get_length s).
Proof. eexists. split; [vm_compute; reflexivity|]. vm_compute. auto. Qed.



(** C4 fails on a new queue after two pushes and the expiry of the timeout:
    the array that the listeners received with [1; 2] in it is empty once
    the flush is over. *)
Lemma emitted_batch_truncated_after_handoff :
  ~ (forall (s : State nat) l seen sat,
       run [OpPush 1%nat; OpPush 2%nat; OpTimeout 0%nat] (construct None)
         = Return s ->
       In (EmitFlush l seen sat) (out s) ->
       array s l = seen).
Proof.
  intros H.
  specialize (H _ 0%nat [1; 2]%nat false eq_refl).
  assert (A : In (EmitFlush 0%nat [1; 2]%nat false)
                [DebugInterval 1000; EmitFlush 0%nat [1; 2]%nat false])
    by (right; left; reflexivity).
  apply H in A. vm_compute in A. discriminate A.
Qed.

Lemma flush_emits_own_buffer_then_truncates_witness :
  exists s : State nat,
    push_all [1; 2]%nat (construct None) = Return s
    /\ _cargoMode (this s) = false
    /\ exists s' : State nat,
         _flush s = Return s'
         /\ out s' = [DebugInterval 1000; EmitFlush 0%nat [1; 2]%nat false]
         /\ array s' 0%nat = []
         /\ _q (this s') = 0%nat.
Proof.
  eexists. split; [vm_compute; reflexivity|]. split; [reflexivity|].
  match goal with
  | |- exists s', _flush ?s = _ /\ _ =>
      destruct (flush_emits_own_buffer_then_truncates s eq_refl)
        as (s' & E & Ho & Ha & Hq & _)
  end.
  exists s'. split; [exact E|]. split; [exact Ho|]. split; [exact Ha|exact Hq].
Defined.

Lemma push_limit_items_flushes_witness :
  exists s' : State nat,
    push_all [1; 2; 3]%nat (construct (Some opts_limit3)) = Return s'
    /\ out s' = [DebugSaturated 3; EmitFlush 0%nat [1; 2; 3]%nat true]
    /\ buf s' = []
    /\ exists s'' : State nat,
         push_all [1; 2]%nat (construct (Some opts_limit3)) = Return s''
         /\ out s'' = [] /\ buf s'' = [1; 2]%nat.
Proof.
  destruct (push_limit_items_flushes
              (construct (item:=nat) (Some opts_limit3)) [1; 2; 3]%nat 3)
    as [(s' & E & Ho & Hb & _) Hprefix].
  { reflexivity. }
  { reflexivity. }
  { reflexivity. }
  { reflexivity. }
  { lia. }
  { vm_compute. reflexivity. }
  { reflexivity. }
  exists s'. split; [exact E|]. split; [exact Ho|]. split; [exact Hb|].
  apply (Hprefix 2%nat). simpl. lia.
Defined.

Lemma pause_holds_flush_until_resume_witness :
  exists s0 s1 s2 : State nat,
    pause (construct (Some opts_limit3)) = Return s0
    /\ push_all [1; 2; 3; 4]%nat s0 = Return s1
    /\ flushes s1 = []
    /\ buf s1 = [1; 2; 3; 4]%nat
    /\ resume s1 = Return s2
    /\ _flushing (this s2) = true
    /\ out s2 = [DebugSaturated 4; EmitFlush 0%nat [1; 2; 3; 4]%nat true]
    /\ buf s2 = [].
Proof.
  destruct (pause_holds_flush_until_resume
              (construct (item:=nat) (Some opts_limit3)) [1; 2; 3; 4]%nat)
    as (s0 & s1 & s2 & E0 & E1 & Hfl & _ & _ & _ & Hb & E2 & _ & Hf2 & Hcase).
  assert (Hb1 : buf s1 = [1; 2; 3; 4]%nat).
  { apply Hb. vm_compute. discriminate. }
  assert (Hq : _q (this s1) = 0%nat /\ out s1 = []
               /\ get_saturated s1 = true).
  { injection E0 as <-. vm_compute in E1. injection E1 as <-.
    split; [reflexivity|]. split; [reflexivity|]. vm_compute. reflexivity. }
  destruct Hq as (Hq & Ho1 & Hsat).
  rewrite Hsat in Hcase. destruct Hcase as (Ho & Hb2 & _).
  exists s0, s1, s2. split; [exact E0|]. split; [exact E1|].
  split; [exact Hfl|]. split; [exact Hb1|]. split; [exact E2|].
  split; [exact Hf2|]. split; [|exact Hb2].
  rewrite Ho, Ho1, Hq, Hb1. unfold get_length. rewrite Hb1. reflexivity.
Defined.

Lemma flushCheck_keeps_pending_timer_witness :
  exists s1 s2 : State nat,
    push 1%nat (construct (Some opts_limit3)) = Return s1
    /\ push_all [2]%nat s1 = Return s2
    /\ _timer (this s1) = Some 0%nat
    /\ _timer (this s2) = Some 0%nat
    /\ timers s2 = {[ 0%nat := 1000 ]}
    /\ _flushCheck s2 = Return s2.
Proof.
  destruct (flushCheck_keeps_pending_timer (item:=nat)) as [Hkeep Hwin].
  destruct (Hwin (construct (Some opts_limit3)) 1%nat [2]%nat)
    as (s1 & s2 & E1 & E2 & Ht1 & Htm1 & Ht2 & Htm2 & _ & Hb2).
  { reflexivity. }
  { reflexivity. }
  { reflexivity. }
  { reflexivity. }
  { vm_compute. discriminate. }
  { reflexivity. }
  exists s1, s2. split; [exact E1|]. split; [exact E2|].
  split; [exact Ht1|]. split; [rewrite Ht2; exact Ht1|].
  split; [rewrite Htm2; exact Htm1|].
  apply (Hkeep s2 0%nat); [rewrite Ht2; exact Ht1|].
  rewrite get_saturated_threshold. unfold get_length. rewrite Hb2.
  assert (Hc : threshold (this s2) = Some 3).
  { vm_compute in E1. injection E1 as <-.
    vm_compute in E2. injection E2 as <-. reflexivity. }
  rewrite Hc. reflexivity.
Defined.

Lemma overflow_drops_item_witness :
  exists s : State nat,
    push_all [1; 2]%nat (construct (Some opts_safety1)) = Return s
    /\ _safetyLimit (this s) < Z.of_nat (get_length s)
    /\ exists s' : State nat,
         push 3%nat s = Return s' /\ unshift 3%nat s = Return s'
         /\ this s' = this s /\ buf s' = [1; 2]%nat
         /\ out s' = [DebugSafety 2000000].
Proof.
  eexists. split; [vm_compute; reflexivity|].
  match goal with
  | |- _ /\ exists s', push _ ?s = _ /\ _ =>
      assert (H : _safetyLimit (this s) < Z.of_nat (get_length s))
        by (vm_compute; reflexivity);
      destruct (overflow_drops_item s 3%nat H)
        as (s' & Ep & Eu & Hthis & _ & Hb & _ & _ & Ho & _)
  end.
  split; [exact H|]. exists s'.
  split; [exact Ep|]. split; [exact Eu|]. split; [exact Hthis|].
  split; [rewrite Hb; vm_compute; reflexivity|exact Ho].
Defined.

Lemma resume_empty_arms_timer_witness :
  exists s1 s2 : State nat,
    resume (construct None) = Return s1
    /\ _timer (this s1) = Some 0%nat
    /\ timers s1 = {[ 0%nat := 1000 ]}
    /\ buf s1 = []
    /\ fire 0%nat s1 = Return s2
    /\ out s2 = [DebugInterval 1000; EmitFlush 0%nat [] false].
Proof.
  destruct (resume_empty_arms_timer (construct (item:=nat) None))
    as (h & s1 & s2 & E1 & Hh & Ht & Htm & Hb & Ho & Ef & Ho2 & _).
  { reflexivity. }
  { reflexivity. }
  { reflexivity. }
  simpl in Hh. subst h. exists s1, s2.
  split; [exact E1|]. split; [exact Ht|]. split; [exact Htm|].
  split; [exact Hb|]. split; [exact Ef|]. rewrite Ho2, Ho. reflexivity.
Defined.

(** * The further properties on sample queues *)

Lemma empty_discards_without_flush_witness :
  exists s : State nat,
    push_all [1; 2]%nat (construct (Some opts_limit3)) = Return s
    /\ _timer (this s) = Some 0%nat
    /\ exists s' : State nat,
         empty s = Return s'
         /\ buf s' = [] /\ out s' = [] /\ timers s' = ∅
         /\ fire 0%nat s' = Return s'.
Proof.
  eexists. split; [vm_compute; reflexivity|]. split; [reflexivity|].
  match goal with
  | |- exists s', empty ?s = _ /\ _ =>
      assert (Hok : timers_ok s) by reflexivity;
      destruct (empty_discards_without_flush s Hok)
        as (s' & E & Hb & Ho & _ & _ & Htm & Hfire)
  end.
  exists s'. split; [exact E|]. split; [exact Hb|]. split; [exact Ho|].
  split; [exact Htm|apply Hfire].
Defined.

Lemma paused_queue_never_flushes_witness :
  exists s' : State nat,
    run [OpPause; OpPush 1%nat; OpPush 2%nat; OpUnshift 0%nat; OpPush 3%nat;
         OpTimeout 0%nat; OpPause]
      (construct (Some opts_limit3)) = Return s'
    /\ buf s' = [0; 1; 2; 3]%nat
    /\ flushes s' = []
    /\ _flushing (this s') = false.
Proof.
  eexists. split; [vm_compute; reflexivity|]. split; [vm_compute; reflexivity|].
  match goal with
  | |- flushes ?s' = _ /\ _ =>
      destruct (paused_queue_never_flushes
                  [OpPush 1%nat; OpPush 2%nat; OpUnshift 0%nat; OpPush 3%nat;
                   OpTimeout 0%nat; OpPause]
                  (construct (Some opts_limit3)) s')
        as (Hfl & Hf & _ & _)
  end.
  { reflexivity. }
  { reflexivity. }
  { vm_compute. reflexivity. }
  split; [exact Hfl|exact Hf].
Defined.

Lemma interval_flush_after_pushes_witness :
  exists s1 s2 : State nat,
    push_all [1; 2]%nat (construct (Some opts_limit3)) = Return s1
    /\ fire 0%nat s1 = Return s2
    /\ out s2 = [DebugInterval 1000; EmitFlush 0%nat [1; 2]%nat false]
    /\ buf s2 = []
    /\ fire 0%nat s2 = Return s2.
Proof.
  destruct (interval_flush_after_pushes
              (construct (item:=nat) (Some opts_limit3)) [1; 2]%nat)
    as (s1 & s2 & E1 & _ & E2 & Ho & Hb & _ & _ & E3).
  { reflexivity. }
  { reflexivity. }
  { reflexivity. }
  { reflexivity. }
  { discriminate. }
  { vm_compute. discriminate. }
  { reflexivity. }
  exists s1, s2. split; [exact E1|]. split; [exact E2|].
  split; [exact Ho|]. split; [exact Hb|exact E3].
Defined.

Lemma unshift_puts_item_first_witness :
  exists s : State nat,
    push_all [1; 2]%nat (construct (Some opts_limit3)) = Return s
    /\ exists s' : State nat,
         unshift 0%nat s = Return s'
         /\ out s' = [DebugSaturated 3; EmitFlush 0%nat [0; 1; 2]%nat true]
         /\ buf s' = [].
Proof.
  eexists. split; [vm_compute; reflexivity|].
  match goal with
  | |- exists s', unshift _ ?s = _ /\ _ =>
      assert (Hlen : Z.of_nat (get_length s) <= _safetyLimit (this s))
        by (vm_compute; discriminate);
      destruct (unshift_puts_item_first s 0%nat Hlen) as (s' & E & Hif)
  end.
  exists s'. split; [exact E|]. exact Hif.
Defined.

Lemma accepted_items_delivered_in_order_witness :
  exists s' : State nat,
    run [OpPush 1%nat; OpPush 2%nat; OpPush 3%nat; OpPause; OpPush 4%nat;
         OpResume; OpTimeout 1%nat; OpPush 5%nat; OpPush 6%nat]
      (construct (Some opts_safety1)) = Return s'
    /\ out s' = [DebugSafety 2000000; DebugSafety 2000000;
                 DebugInterval 1000; EmitFlush 0%nat [1; 2]%nat false]
    /\ buf s' = [5; 6]%nat
    /\ delivered s' ++ buf s' = [1; 2; 5; 6]%nat.
Proof.
  eexists. split; [vm_compute; reflexivity|]. split; [vm_compute; reflexivity|].
  split; [vm_compute; reflexivity|].
  match goal with
  | |- delivered ?s' ++ _ = _ =>
      assert (E : run [OpPush 1%nat; OpPush 2%nat; OpPush 3%nat; OpPause;
                       OpPush 4%nat; OpResume; OpTimeout 1%nat; OpPush 5%nat;
                       OpPush 6%nat]
                    (construct (Some opts_safety1)) = Return s')
        by (vm_compute; reflexivity);
      pose proof (fun Hops =>
                    accepted_items_delivered_in_order _ _ s' Hops E) as H
  end.
  rewrite (H eq_refl). vm_compute. reflexivity.
Defined.

Lemma length_stays_within_limit_plus_one_witness :
  exists s' : State nat,
    run [OpPush 1%nat; OpPush 2%nat; OpPush 3%nat; OpUnshift 4%nat]
      (construct (Some opts_safety1)) = Return s'
    /\ buf s' = [1; 2]%nat
    /\ Z.of_nat (get_length s') <= 1 + 1.
Proof.
  eexists. split; [vm_compute; reflexivity|]. split; [vm_compute; reflexivity|].
  match goal with
  | |- Z.of_nat (get_length ?s') <= _ =>
      apply (length_stays_within_limit_plus_one
               [OpPush 1%nat; OpPush 2%nat; OpPush 3%nat; OpUnshift 4%nat]
               (construct (Some opts_safety1)) s')
  end.
  { vm_compute. discriminate. }
  { vm_compute. reflexivity. }
Defined.

Lemma flushing_queue_never_left_saturated_witness :
  exists s' : State nat,
    run [OpPause; OpPush 1%nat; OpPush 2%nat; OpPush 3%nat; OpPush 4%nat;
         OpResume; OpPush 5%nat]
      (construct (Some opts_limit3)) = Return s'
    /\ _flushing (this s') = true
    /\ buf s' = [5]%nat
    /\ get_saturated s' = false.
Proof.
  eexists. split; [vm_compute; reflexivity|]. split; [reflexivity|].
  split; [vm_compute; reflexivity|].
  match goal with
  | |- get_saturated ?s' = _ =>
      apply (flushing_queue_never_left_saturated
               [OpPause; OpPush 1%nat; OpPush 2%nat; OpPush 3%nat;
                OpPush 4%nat; OpResume; OpPush 5%nat]
               (construct (Some opts_limit3)) s')
  end.
  { reflexivity. }
  { intros _. reflexivity. }
  { vm_compute. reflexivity. }
  { reflexivity. }
Defined.

Lemma configuration_and_buffer_array_fixed_witness :
  exists s' : State nat,
    run [OpPush 1%nat; OpPush 2%nat; OpPush 3%nat; OpPause; OpEmpty; OpResume]
      (construct (Some opts_limit3)) = Return s'
    /\ config (this s') = (0%nat, 3, 1000, false, None, None, 2000000)
    /\ array s' 1%nat = [].
Proof.
  eexists. split; [vm_compute; reflexivity|].
  match goal with
  | |- config (this ?s') = _ /\ _ =>
      destruct (configuration_and_buffer_array_fixed
                  [OpPush 1%nat; OpPush 2%nat; OpPush 3%nat; OpPause; OpEmpty;
                   OpResume]
                  (construct (Some opts_limit3)) s') as [Hc Ha]
  end.
  { vm_compute. reflexivity. }
  split; [exact Hc|]. rewrite Ha; [reflexivity|]. simpl. lia.
Defined.

Lemma pause_resume_restarts_interval_witness :
  exists s : State nat,
    push 1%nat (construct (Some opts_limit3)) = Return s
    /\ _timer (this s) = Some 0%nat
    /\ exists s1 s2 : State nat,
         pause s = Return s1 /\ resume s1 = Return s2
         /\ buf s2 = [1]%nat
         /\ _timer (this s2) = Some 1%nat
         /\ timers s2 = {[ 1%nat := 1000 ]}
         /\ fire 0%nat s2 = Return s2.
Proof.
  eexists. split; [vm_compute; reflexivity|]. split; [reflexivity|].
  match goal with
  | |- exists s1 s2, pause ?s = _ /\ _ =>
      assert (Hok : timers_ok s) by reflexivity;
      assert (Hfr : timer_fresh s)
        by (intros h Hh; injection Hh as <-; apply Nat.lt_0_1);
      assert (Hs : get_saturated s = false) by reflexivity;
      destruct (pause_resume_restarts_interval s Hok Hfr Hs)
        as (s1 & s2 & E1 & E2 & Hb & _ & _ & Ht & Htm & Hfire)
  end.
  exists s1, s2. split; [exact E1|]. split; [exact E2|].
  split; [exact Hb|]. split; [exact Ht|]. split; [exact Htm|].
  apply Hfire. reflexivity.
Defined.

Lemma flush_never_calls_handler_nor_pauses_witness :
  exists s' : State nat,
    run [OpPush 1%nat; OpPush 2%nat; OpPush 3%nat; OpTimeout 1%nat;
         OpPush 4%nat; OpResume]
      (construct (Some opts_cargo2)) = Return s'
    /\ flushes s' = [EmitFlush 0%nat [1; 2]%nat true;
                     EmitFlush 0%nat [3]%nat false]
    /\ cargo_calls s' = []
    /\ _flushing (this s') = true.
Proof.
  eexists. split; [vm_compute; reflexivity|]. split; [vm_compute; reflexivity|].
  match goal with
  | |- cargo_calls ?s' = _ /\ _ =>
      destruct (flush_never_calls_handler_nor_pauses
                  [OpPush 1%nat; OpPush 2%nat; OpPush 3%nat; OpTimeout 1%nat;
                   OpPush 4%nat; OpResume]
                  (construct (Some opts_cargo2)) s') as [Hc Hf]
  end.
  { vm_compute. reflexivity. }
  split; [exact Hc|]. apply Hf; reflexivity.
Defined.

Lemma push_threshold_items_emits_flush_witness :
  exists s' : State nat,
    push_all [1; 2]%nat (construct (Some opts_cargo2)) = Return s'
    /\ _cargoMode (this s') = true
    /\ out s' = [DebugSaturated 2; EmitFlush 0%nat [1; 2]%nat true]
    /\ buf s' = [].
Proof.
  destruct (push_threshold_items_emits_flush
              (construct (item:=nat) (Some opts_cargo2)) [1; 2]%nat 2)
    as [(s' & E & Ho & Hb & _) _].
  { reflexivity. }
  { reflexivity. }
  { reflexivity. }
  { lia. }
  { vm_compute. discriminate. }
  { reflexivity. }
  exists s'. split; [exact E|]. split; [|split; [exact Ho|exact Hb]].
  vm_compute in E. injection E as <-. reflexivity.
Defined.
